(** * bioRAG front end: the root component, the results view and the HTTP client

    A shallow embedding of [frontend/src/App.vue], of the template of
    [frontend/src/components/SearchResults.vue] and of the [searchAPI] wrapper,
    together with the properties of the search flow: deduplication by
    identifier, the handling of a failed request, the loading flag and the
    one-way [searched] latch.

    JavaScript values are primitives or references into a heap of objects;
    the component instance [this] is a record of its four data fields; a
    method is a program over a small set of effects (reads and writes of
    [this], heap reads and allocations, the console, and one [await] of an
    axios request), run by an interpreter that stops at the [await]. *)

From Stdlib Require Import SpecFloat.
From stdpp Require Import gmap strings list fin_maps.

Local Open Scope string_scope.
Local Open Scope list_scope.

(** ** JavaScript values *)

Definition addr := nat.

Inductive JsValue : Type :=
| JsUndefined
| JsNull
| JsBoolean (b : bool)
| JsNumber (n : spec_float)
| JsString (s : string)
| JsObjectRef (a : addr).

(** An object of the heap: an array with its elements, or an ordinary
    object with its own properties (a decoded JSON object, a request body,
    an error with its [name] and [message]). *)
Inductive JsObject : Type :=
| ArrayObj (elems : list JsValue)
| PlainObj (props : gmap string JsValue).

Abbreviation Heap := (gmap addr JsObject).

(** The number 10 as an IEEE binary64 value. *)
Definition number_10 : spec_float :=
  Eval cbv in binary_normalize 53 1024 10 0 false.

Module Js.

(** ToBoolean, as used by [||], [!], [&&] and [v-if]. *)
Definition to_boolean (v : JsValue) : bool :=
  match v with
  | JsUndefined | JsNull => false
  | JsBoolean b => b
  | JsNumber (S754_zero _) | JsNumber S754_nan => false
  | JsNumber _ => true
  | JsString s => negb (String.eqb s "")
  | JsObjectRef _ => true
  end.

(** SameValueZero on numbers: NaN is the same as NaN, and +0 as -0. *)
Definition number_same_value_zero (x y : spec_float) : bool :=
  match x, y with
  | S754_nan, S754_nan => true
  | _, _ => SFeqb x y
  end.

(** SameValueZero, the comparison of [Set.prototype.has]: objects are the
    same when they are the same object. *)
Definition same_value_zero (x y : JsValue) : bool :=
  match x, y with
  | JsUndefined, JsUndefined => true
  | JsNull, JsNull => true
  | JsBoolean a, JsBoolean b => Bool.eqb a b
  | JsNumber a, JsNumber b => number_same_value_zero a b
  | JsString a, JsString b => String.eqb a b
  | JsObjectRef a, JsObjectRef b => Nat.eqb a b
  | _, _ => false
  end.

End Js.

(** The member names that occur in the two components and the client.
    None of them is [length], an array index, or a property of a built-in
    prototype, so on an array or a primitive they read as [undefined]. *)
Inductive Member : Type :=
| M_data | M_results | M_summary
| M_pmc_id | M_title | M_authors | M_year | M_journal.

Definition member_key (m : Member) : string :=
  match m with
  | M_data => "data"
  | M_results => "results"
  | M_summary => "summary"
  | M_pmc_id => "pmc_id"
  | M_title => "title"
  | M_authors => "authors"
  | M_year => "year"
  | M_journal => "journal"
  end.

(** ** The component instance and the world *)

(** [data()] of [App]: [results] and [summary] hold whatever was assigned;
    [loading] and [searched] are only ever assigned boolean literals. *)
Record Component : Type := {
  results : JsValue;
  summary : JsValue;
  loading : bool;
  searched : bool
}.

(** An axios instance and a request issued through it. *)
Record AxiosInstance : Type := { baseURL : string }.

Inductive HttpMethod : Type := GET | POST.

Record AxiosRequest : Type := {
  req_method : HttpMethod;
  req_baseURL : string;
  req_url : string;
  req_data : JsValue
}.

(** What an observer of the component can see happen. *)
Inductive Event : Type :=
| EvSetResults (v : JsValue)
| EvSetSummary (v : JsValue)
| EvSetLoading (b : bool)
| EvSetSearched (b : bool)
| EvRequest (r : AxiosRequest)
| EvConsoleError (args : list JsValue).

Record World : Type := {
  this : Component;
  heap : gmap addr JsObject;
  trace : list Event
}.

(** How a promise settles. *)
Inductive Settled : Type :=
| Fulfilled (v : JsValue)
| Rejected (e : JsValue).

(** ** Programs *)

(** The synchronous effects, indexed by the type of their answer. *)
Inductive Eff : Type -> Type :=
| GetResults : Eff JsValue
| GetSummary : Eff JsValue
| GetLoading : Eff bool
| GetSearched : Eff bool
| SetResults (v : JsValue) : Eff unit
| SetSummary (v : JsValue) : Eff unit
| SetLoading (b : bool) : Eff unit
| SetSearched (b : bool) : Eff unit
| HeapRead (a : addr) : Eff (option JsObject)
| HeapAlloc (o : JsObject) : Eff JsValue
| ConsoleError (args : list JsValue) : Eff unit.

(** A method body: it returns, throws, performs an effect and goes on, or
    awaits the promise of a request and goes on when it settles. *)
Inductive Prog (A : Type) : Type :=
| Ret (a : A)
| Throw (e : JsValue)
| Vis {X : Type} (e : Eff X) (k : X -> Prog A)
| Await (r : AxiosRequest) (k : Settled -> Prog A).

Arguments Ret {A} a.
Arguments Throw {A} e.
Arguments Vis {A X} e k.
Arguments Await {A} r k.

Fixpoint bind {A B : Type} (p : Prog A) (f : A -> Prog B) : Prog B :=
  match p with
  | Ret a => f a
  | Throw e => Throw e
  | Vis e k => Vis e (fun x => bind (k x) f)
  | Await r k => Await r (fun s => bind (k s) f)
  end.

(** [try { p } catch (error) { h error }] *)
Fixpoint try_catch {A : Type} (p : Prog A) (h : JsValue -> Prog A) : Prog A :=
  match p with
  | Ret a => Ret a
  | Throw e => h e
  | Vis e k => Vis e (fun x => try_catch (k x) h)
  | Await r k => Await r (fun s => try_catch (k s) h)
  end.

Definition perform {X : Type} (e : Eff X) : Prog X := Vis e Ret.

(** [await] of the promise of a request: the value it is fulfilled with,
    or a throw of the reason it is rejected with. *)
Definition await (r : AxiosRequest) : Prog JsValue :=
  Await r (fun s => match s with Fulfilled v => Ret v | Rejected e => Throw e end).

Global Instance prog_ret : MRet Prog := fun A a => Ret a.
Global Instance prog_bind : MBind Prog := fun A B f p => bind p f.

(** ** The interpreter *)

Definition set_this (c : Component) (w : World) : World :=
  {| this := c; heap := heap w; trace := trace w |}.

Definition log (ev : Event) (w : World) : World :=
  {| this := this w; heap := heap w; trace := trace w ++ [ev] |}.

(** An address no object of the heap lives at. *)
Definition fresh_addr (h : gmap addr JsObject) : addr :=
  S (map_fold (fun a _ m => Nat.max a m) 0 h).

Definition alloc (o : JsObject) (w : World) : World :=
  {| this := this w; heap := <[fresh_addr (heap w) := o]> (heap w); trace := trace w |}.

Definition handle {X : Type} (e : Eff X) (w : World) : X * World :=
  match e in Eff X return X * World with
  | GetResults => (results (this w), w)
  | GetSummary => (summary (this w), w)
  | GetLoading => (loading (this w), w)
  | GetSearched => (searched (this w), w)
  | SetResults v =>
      (tt, log (EvSetResults v)
             (set_this {| results := v; summary := summary (this w);
                          loading := loading (this w); searched := searched (this w) |} w))
  | SetSummary v =>
      (tt, log (EvSetSummary v)
             (set_this {| results := results (this w); summary := v;
                          loading := loading (this w); searched := searched (this w) |} w))
  | SetLoading b =>
      (tt, log (EvSetLoading b)
             (set_this {| results := results (this w); summary := summary (this w);
                          loading := b; searched := searched (this w) |} w))
  | SetSearched b =>
      (tt, log (EvSetSearched b)
             (set_this {| results := results (this w); summary := summary (this w);
                          loading := loading (this w); searched := b |} w))
  | HeapRead a => (heap w !! a, w)
  | HeapAlloc o => (JsObjectRef (fresh_addr (heap w)), alloc o w)
  | ConsoleError args => (tt, log (EvConsoleError args) w)
  end.

(** Where a run ends: with a value, with an uncaught throw, or suspended at
    an [await] with the request issued and the rest of the method. *)
Inductive Outcome (A : Type) : Type :=
| Returned (a : A) (w : World)
| Thrown (e : JsValue) (w : World)
| Suspended (r : AxiosRequest) (k : Settled -> Prog A) (w : World).

Arguments Returned {A} a w.
Arguments Thrown {A} e w.
Arguments Suspended {A} r k w.

Fixpoint run {A : Type} (p : Prog A) (w : World) : Outcome A :=
  match p with
  | Ret a => Returned a w
  | Throw e => Thrown e w
  | Vis e k => let '(x, w') := handle e w in run (k x) w'
  | Await r k => Suspended r k (log (EvRequest r) w)
  end.

(** ** Reading a member *)

(** A [TypeError], thrown by the engine. *)
Definition type_error_object : JsObject :=
  PlainObj {[ "name" := JsString "TypeError" ]}.

Definition type_error {A : Type} : Prog A :=
  e ← perform (HeapAlloc type_error_object);
  Throw e.

(** [v.m] for a member name [m] of the source: a throw on [undefined] and
    [null]; the own property of an ordinary object, [undefined] when it has
    none; [undefined] on an array and on a primitive. An address without an
    object has no property to read. *)
Definition get_member (v : JsValue) (m : Member) : Prog JsValue :=
  match v with
  | JsUndefined | JsNull => type_error
  | JsObjectRef a =>
      o ← perform (HeapRead a);
      match o with
      | Some (PlainObj props) => mret (default JsUndefined (props !! member_key m))
      | Some (ArrayObj _) | None => mret JsUndefined
      end
  | JsBoolean _ | JsNumber _ | JsString _ => mret JsUndefined
  end.

(** ** The HTTP client: [api.js] *)

Definition api : AxiosInstance := {| baseURL := "http://localhost:5001/api" |}.

(** [instance.post(url, data)]: the request axios issues. *)
Definition post (instance : AxiosInstance) (url : string) (data : JsValue) : AxiosRequest :=
  {| req_method := POST; req_baseURL := baseURL instance; req_url := url; req_data := data |}.

(** [searchAPI = async (query, topK = 10) => ...]; an argument that is not
    passed is [undefined], and so takes the default. *)
Definition searchAPI (query topK : JsValue) : Prog JsValue :=
  let topK := match topK with JsUndefined => JsNumber number_10 | _ => topK end in
  body ← perform (HeapAlloc (PlainObj {[ "query" := query; "top_k" := topK ]}));
  response ← await (post api "/search" body);
  get_member response M_data.

(** ** The root component: [App.vue] *)

(** The [seen] set of [uniqueResults], in insertion order. *)
Module JsSet.
Definition t := list JsValue.
Definition empty : t := [].
Definition has (s : t) (v : JsValue) : bool := existsb (Js.same_value_zero v) s.
Definition add (s : t) (v : JsValue) : t := if has s v then s else s ++ [v].
End JsSet.

(** [elems.filter(result => { ... })] with the callback of [uniqueResults],
    [seen] being the set as the callback left it. *)
Fixpoint filter_unseen (seen : JsSet.t) (elems : list JsValue) : Prog (list JsValue) :=
  match elems with
  | [] => mret []
  | result :: rest =>
      id ← get_member result M_pmc_id;
      if JsSet.has seen id then filter_unseen seen rest
      else kept ← filter_unseen (JsSet.add seen id) rest; mret (result :: kept)
  end.

(** The computed property [uniqueResults]. [filter] is a method of arrays
    only; it returns a new array. *)
Definition uniqueResults : Prog JsValue :=
  let seen := JsSet.empty in
  rs ← perform GetResults;
  match rs with
  | JsObjectRef a =>
      o ← perform (HeapRead a);
      match o with
      | Some (ArrayObj elems) =>
          kept ← filter_unseen seen elems;
          perform (HeapAlloc (ArrayObj kept))
      | _ => type_error
      end
  | _ => type_error
  end.

(** [a || b], [b] being evaluated only when [a] is falsy. *)
Definition or_else (a : JsValue) (b : Prog JsValue) : Prog JsValue :=
  if Js.to_boolean a then mret a else b.

Definition empty_array : Prog JsValue := perform (HeapAlloc (ArrayObj [])).

(** The method [handleSearch]; it calls [searchAPI] with one argument. *)
Definition handleSearch (query : JsValue) : Prog unit :=
  perform (SetLoading true);;
  perform (SetSearched true);;
  try_catch
    (data ← searchAPI query JsUndefined;
     r ← get_member data M_results;
     r ← or_else r empty_array;
     perform (SetResults r);;
     s ← get_member data M_summary;
     s ← or_else s (mret (JsString ""));
     perform (SetSummary s))
    (fun error =>
       perform (ConsoleError [JsString "Search error:"; error]);;
       r ← empty_array;
       perform (SetResults r);;
       perform (SetSummary (JsString "")));;
  perform (SetLoading false).

(** [data()], run when the component is created. *)
Definition data : Prog Component :=
  r ← empty_array;
  mret {| results := r; summary := JsString ""; loading := false; searched := false |}.

(** ** The results view: the template of [SearchResults.vue] *)

Module SearchResults.

(** [props: { results: Array, summary: String, loading: Boolean,
    searched: Boolean }]; [results] is the array with its elements. *)
Record Props : Type := {
  results : list JsValue;
  summary : JsValue;
  loading : bool;
  searched : bool
}.

(** A template literal: its text and the values interpolated in it. *)
Inductive Piece : Type :=
| Text (s : string)
| Interpolated (v : JsValue).

(** One result card: the [:key], the interpolated members, and the link to
    the document viewer with its [href] and its text. *)
Record Card : Type := {
  key : JsValue;
  title : JsValue;
  authors : JsValue;
  year : JsValue;
  journal : JsValue;
  href : list Piece;
  link_text : JsValue
}.

Inductive Block : Type :=
| LoadingBlock
| SummaryBlock (text : JsValue)
| ResultsBlock (cards : list Card)
| NoResultsBlock.

Definition render_card (result : JsValue) : Prog Card :=
  k ← get_member result M_pmc_id;
  t ← get_member result M_title;
  a ← get_member result M_authors;
  a ← or_else a (mret (JsString "Unknown Authors"));
  y ← get_member result M_year;
  j ← get_member result M_journal;
  h ← get_member result M_pmc_id;
  l ← get_member result M_pmc_id;
  mret {| key := k; title := t; authors := a; year := y; journal := j;
          href := [Text "https://pmc.ncbi.nlm.nih.gov/articles/"; Interpolated h; Text "/"];
          link_text := l |}.

Fixpoint render_cards (rs : list JsValue) : Prog (list Card) :=
  match rs with
  | [] => mret []
  | r :: rest => c ← render_card r; cs ← render_cards rest; mret (c :: cs)
  end.

(** The four [v-if] blocks, each decided on its own. *)
Definition render (p : Props) : Prog (list Block) :=
  let b1 := if loading p then [LoadingBlock] else [] in
  let b2 := if Js.to_boolean (summary p) then [SummaryBlock (summary p)] else [] in
  b3 ← (if (0 <? length (results p))%nat
        then cs ← render_cards (results p); mret [ResultsBlock cs]
        else mret []);
  let b4 := if negb (loading p) && (length (results p) =? 0)%nat && searched p
            then [NoResultsBlock] else [] in
  mret (b1 ++ b2 ++ b3 ++ b4).

End SearchResults.

(** The elements of an array, as the view's [results] prop takes them. *)
Definition array_elements (v : JsValue) : Prog (list JsValue) :=
  match v with
  | JsObjectRef a =>
      o ← perform (HeapRead a);
      match o with
      | Some (ArrayObj elems) => mret elems
      | _ => type_error
      end
  | _ => type_error
  end.

(** The template of [App]: what it hands to [SearchResults]. *)
Definition render_App : Prog (list SearchResults.Block) :=
  unique ← uniqueResults;
  elems ← array_elements unique;
  s ← perform GetSummary;
  l ← perform GetLoading;
  sd ← perform GetSearched;
  SearchResults.render
    {| SearchResults.results := elems; SearchResults.summary := s;
       SearchResults.loading := l; SearchResults.searched := sd |}.

(** ** The component over time *)

(** The world together with the submissions whose request has not settled
    yet, each with the rest of its [handleSearch]. *)
Record System : Type := {
  world : World;
  pending : list (Settled -> Prog unit)
}.

(** What can happen to the component: the search box emits [search], the
    request of a pending submission settles (axios having allocated [objs]
    for the response or the error), or the template is rendered. *)
Inductive Op : Type :=
| Submit (query : JsValue)
| Settle (i : nat) (objs : gmap addr JsObject) (s : Settled)
| Render.

Definition world_of {A : Type} (o : Outcome A) : World :=
  match o with
  | Returned _ w | Thrown _ w | Suspended _ _ w => w
  end.

Definition receive (objs : gmap addr JsObject) (w : World) : World :=
  {| this := this w; heap := heap w ∪ objs; trace := trace w |}.

Definition step (sys : System) (op : Op) : System :=
  match op with
  | Submit query =>
      match run (handleSearch query) (world sys) with
      | Suspended _ k w => {| world := w; pending := pending sys ++ [k] |}
      | o => {| world := world_of o; pending := pending sys |}
      end
  | Settle i objs s =>
      match pending sys !! i with
      | None => sys
      | Some k =>
          match run (k s) (receive objs (world sys)) with
          | Suspended _ k' w => {| world := w; pending := <[i := k']> (pending sys) |}
          | o => {| world := world_of o; pending := delete i (pending sys) |}
          end
      end
  | Render =>
      {| world := world_of (run render_App (world sys)); pending := pending sys |}
  end.

Definition exec (ops : list Op) (sys : System) : System := foldl step sys ops.

(** The component right after its creation. *)
Definition created : System :=
  match run data {| this := {| results := JsUndefined; summary := JsUndefined;
                               loading := false; searched := false |};
                    heap := ∅; trace := [] |} with
  | Returned c w => {| world := set_this c w; pending := [] |}
  | o => {| world := world_of o; pending := [] |}
  end.

(** ** Pure readings, used to state what the programs compute *)

Definition nullish (v : JsValue) : bool :=
  match v with
  | JsUndefined | JsNull => true
  | _ => false
  end.

(** The value [get_member] reads from a value that is not nullish. *)
Definition member_of (h : gmap addr JsObject) (v : JsValue) (m : Member) : JsValue :=
  match v with
  | JsObjectRef a =>
      match h !! a with
      | Some (PlainObj props) => default JsUndefined (props !! member_key m)
      | _ => JsUndefined
      end
  | _ => JsUndefined
  end.

(** The identifier of an entry, and the comparison [seen.has] makes of the
    identifiers of two entries. *)
Definition pmc_id (h : gmap addr JsObject) (e : JsValue) : JsValue :=
  member_of h e M_pmc_id.

Definition same_identifier (h : gmap addr JsObject) (x y : JsValue) : bool :=
  Js.same_value_zero (pmc_id h x) (pmc_id h y).

Definition no_identifier (h : gmap addr JsObject) (e : JsValue) : bool :=
  Js.same_value_zero JsUndefined (pmc_id h e).

(** The entries [filter_unseen] keeps when every entry can be read. *)
Fixpoint unseen_entries (h : gmap addr JsObject) (seen : JsSet.t) (elems : list JsValue)
  : list JsValue :=
  match elems with
  | [] => []
  | e :: rest =>
      if JsSet.has seen (pmc_id h e) then unseen_entries h seen rest
      else e :: unseen_entries h (JsSet.add seen (pmc_id h e)) rest
  end.

(** The writes of the loading flag among some events, and the requests. *)
Definition loading_writes (t : list Event) : list bool :=
  omap (fun ev => match ev with EvSetLoading b => Some b | _ => None end) t.

Definition requests (t : list Event) : list AxiosRequest :=
  omap (fun ev => match ev with EvRequest r => Some r | _ => None end) t.

(** The state a search leaves when it found nothing: a stored empty array
    and the empty string. *)
Definition empty_handed (w : World) : Prop :=
  (∃ a, results (this w) = JsObjectRef a ∧ heap w !! a = Some (ArrayObj [])) ∧
  summary (this w) = JsString "".

(** [w'] is [w] with more objects allocated, and nothing else changed. *)
Definition grown (w w' : World) : Prop :=
  this w' = this w ∧ trace w' = trace w ∧
  ∀ a o, heap w !! a = Some o → heap w' !! a = Some o.

(** A program that only reads and allocates: it ends, by a value or a throw,
    in a world that has grown. *)
Definition harmless {A : Type} (p : Prog A) : Prop :=
  ∀ w, match run p w with
       | Returned _ w' | Thrown _ w' => grown w w'
       | Suspended _ _ _ => False
       end.

(** The run of a method from the settling of its request on: [o] is where
    the method stopped, [s] how the promise settled, [w] the world by then
    (other handlers may have run in between). *)
Definition resumed {A : Type} (o : Outcome A) (s : Settled) (w : World) : Outcome A :=
  match o with
  | Suspended _ k _ => run (k s) w
  | _ => o
  end.

(** A settlement that hands [handleSearch] no object to read the fields of:
    a rejection, no response, or a response whose [data] is not an object. *)
Definition is_object (v : JsValue) : bool :=
  match v with
  | JsObjectRef _ => true
  | _ => false
  end.

Definition without_body (h : gmap addr JsObject) (s : Settled) : bool :=
  match s with
  | Rejected _ => true
  | Fulfilled response => nullish response || negb (is_object (member_of h response M_data))
  end.

(** The response axios builds for the body [{ results: [], summary: '' }],
    allocated in [w]. *)
Definition empty_response (w : World) : JsValue * World :=
  let '(r, w) := handle (HeapAlloc (ArrayObj [])) w in
  let '(d, w) := handle (HeapAlloc (PlainObj {[ "results" := r; "summary" := JsString "" ]})) w in
  handle (HeapAlloc (PlainObj {[ "data" := d ]})) w.

(** A value that is an array of the heap. *)
Definition is_array (h : gmap addr JsObject) (v : JsValue) : Prop :=
  ∃ a elems, v = JsObjectRef a ∧ h !! a = Some (ArrayObj elems).

(** A rest of a method that ends normally and leaves [searched] alone. *)
Definition keeps_searched (k : Settled → Prog unit) : Prop :=
  ∀ s w, ∃ w', run (k s) w = Returned tt w' ∧ searched (this w') = searched (this w).

(** Every pending rest is one that leaves [searched] alone. *)
Definition settled_pending (sys : System) : Prop := Forall keeps_searched (pending sys).

(** ** Sample worlds *)

Definition number_2020 : spec_float := Eval cbv in binary_normalize 53 1024 2020 0 false.
Definition number_2021 : spec_float := Eval cbv in binary_normalize 53 1024 2021 0 false.

Definition result_A : JsObject :=
  PlainObj {[ "pmc_id" := JsString "PMC1"; "title" := JsString "A";
              "year" := JsNumber number_2020; "journal" := JsString "J1" ]}.

Definition result_A_dup : JsObject :=
  PlainObj {[ "pmc_id" := JsString "PMC1"; "title" := JsString "A-dup";
              "year" := JsNumber number_2021; "journal" := JsString "J2" ]}.

Definition result_B : JsObject := PlainObj {[ "title" := JsString "B" ]}.
Definition result_C : JsObject := PlainObj {[ "title" := JsString "C" ]}.

(** The body [{ results: [A, A-dup], summary: "S" }] of a response. *)
Definition body_PMC1 : gmap string JsValue :=
  {[ "results" := JsObjectRef 3; "summary" := JsString "S" ]}.

Definition response_PMC1 : gmap string JsValue := {[ "data" := JsObjectRef 2 ]}.

(** A world in which a first search is under way and the response with
    that body has arrived. *)
Definition arrived_PMC1 : World :=
  {| this := {| results := JsObjectRef 10; summary := JsString "";
                loading := true; searched := true |};
     heap := {[ 1 := PlainObj response_PMC1; 2 := PlainObj body_PMC1;
                3 := ArrayObj [JsObjectRef 4; JsObjectRef 5];
                4 := result_A; 5 := result_A_dup; 10 := ArrayObj [] ]};
     trace := [] |}.

(** A world whose stored results hold a duplicate and two entries without
    an identifier. *)
Definition stored_duplicates : World :=
  {| this := {| results := JsObjectRef 3; summary := JsString "S";
                loading := false; searched := true |};
     heap := {[ 3 := ArrayObj [JsObjectRef 4; JsObjectRef 5; JsObjectRef 6; JsObjectRef 7];
                4 := result_A; 5 := result_A_dup; 6 := result_B; 7 := result_C ]};
     trace := [] |}.

(** ** Further readings *)

(** Values none of which is the same as another, by SameValueZero. *)
Fixpoint distinct_values (l : list JsValue) : bool :=
  match l with
  | [] => true
  | v :: rest => negb (JsSet.has rest v) && distinct_values rest
  end.

Definition is_number (v : JsValue) : bool :=
  match v with
  | JsNumber _ => true
  | _ => false
  end.

(** The world after the assignment [this.results = v]. *)
Definition store_results (v : JsValue) (w : World) : World :=
  (handle (SetResults v) w).2.

(** The entries of the array [this.results] refers to, when it is one. *)
Definition stored_entries (w : World) : option (list JsValue) :=
  match results (this w) with
  | JsObjectRef a =>
      match heap w !! a with
      | Some (ArrayObj elems) => Some elems
      | _ => None
      end
  | _ => None
  end.

(** The card the template makes of an entry that can be read. *)
Definition card_of (h : gmap addr JsObject) (r : JsValue) : SearchResults.Card :=
  {| SearchResults.key := pmc_id h r;
     SearchResults.title := member_of h r M_title;
     SearchResults.authors :=
       if Js.to_boolean (member_of h r M_authors) then member_of h r M_authors
       else JsString "Unknown Authors";
     SearchResults.year := member_of h r M_year;
     SearchResults.journal := member_of h r M_journal;
     SearchResults.href :=
       [SearchResults.Text "https://pmc.ncbi.nlm.nih.gov/articles/";
        SearchResults.Interpolated (pmc_id h r);
        SearchResults.Text "/"];
     SearchResults.link_text := pmc_id h r |}.

(** The blocks the template of [App] renders from stored entries that can
    all be read: those of the view, for the entries [uniqueResults] keeps. *)
Definition rendered_blocks (w : World) (elems : list JsValue) : list SearchResults.Block :=
  let kept := unseen_entries (heap w) JsSet.empty elems in
  (if loading (this w) then [SearchResults.LoadingBlock] else []) ++
  (if Js.to_boolean (summary (this w))
   then [SearchResults.SummaryBlock (summary (this w))] else []) ++
  (match kept with
   | [] => []
   | _ :: _ => [SearchResults.ResultsBlock (card_of (heap w) <$> kept)]
   end) ++
  (if negb (loading (this w)) && (length kept =? 0)%nat && searched (this w)
   then [SearchResults.NoResultsBlock] else []).

(** The calls of [console.error] among some events, each with its arguments. *)
Definition console_errors (t : list Event) : list (list JsValue) :=
  omap (fun ev => match ev with EvConsoleError args => Some args | _ => None end) t.

(** A rest of [handleSearch]: what some call of it left at its [await]. *)
Definition rest_of_handleSearch (k : Settled → Prog unit) : Prop :=
  ∃ query w r w1, run (handleSearch query) w = Suspended r k w1.

Definition handleSearch_pending (sys : System) : Prop :=
  Forall rest_of_handleSearch (pending sys).

Definition is_submit (op : Op) : bool :=
  match op with
  | Submit _ => true
  | _ => false
  end.

(** ** More sample worlds *)

(** Props of the view: two entries kept, a summary, a search done. *)
Definition props_two_results : SearchResults.Props :=
  {| SearchResults.results := [JsObjectRef 4; JsObjectRef 6];
     SearchResults.summary := JsString "S";
     SearchResults.loading := false;
     SearchResults.searched := true |}.

(** A world in which the response [{ results: "oops", summary: 0 }] has
    arrived. *)
Definition arrived_malformed : World :=
  {| this := {| results := JsObjectRef 10; summary := JsString "";
                loading := true; searched := true |};
     heap := {[ 1 := PlainObj {[ "data" := JsObjectRef 2 ]};
                2 := PlainObj {[ "results" := JsString "oops";
                                 "summary" := JsNumber (S754_zero false) ]};
                10 := ArrayObj [] ]};
     trace := [] |}.

(** Two searches submitted one after the other, and the objects axios
    allocates for a response to the first of them. *)
Definition two_submissions : list Op :=
  [Submit (JsString "first"); Submit (JsString "second")].

Definition late_objects : gmap addr JsObject :=
  {[ 100 := PlainObj {[ "data" := JsObjectRef 101 ]};
     101 := PlainObj {[ "results" := JsObjectRef 102; "summary" := JsString "late" ]};
     102 := ArrayObj [] ]}.

(** * Properties *)

(** ** The heap *)

Lemma fresh_addr_bound (h : gmap addr JsObject) (a : addr) :
  is_Some (h !! a) → a < fresh_addr h.
Proof.
  unfold fresh_addr.
  apply (map_fold_weak_ind
           (fun m (h : gmap addr JsObject) => ∀ a, is_Some (h !! a) → a < S m)).
  - intros b [o Ho]. by rewrite lookup_empty in Ho.
  - intros i o m r _ IH b Hb.
    destruct (decide (i = b)) as [->|Hne]; [lia|].
    rewrite lookup_insert_ne in Hb by done.
    specialize (IH b Hb). lia.
Qed.

Lemma fresh_addr_None (h : gmap addr JsObject) : h !! fresh_addr h = None.
Proof.
  destruct (h !! fresh_addr h) eqn:E; [|done].
  pose proof (fresh_addr_bound h (fresh_addr h) (mk_is_Some _ _ E)). lia.
Qed.

Lemma alloc_lookup (o : JsObject) (w : World) :
  heap (alloc o w) !! fresh_addr (heap w) = Some o.
Proof. apply lookup_insert_eq. Qed.

Lemma alloc_extends (o : JsObject) (w : World) : heap w ⊆ heap (alloc o w).
Proof. apply insert_subseteq, fresh_addr_None. Qed.

(** ** SameValueZero is an equivalence *)

Module SameValueZero.

Lemma SFeqb_true_iff (x y : spec_float) :
  SFeqb x y = true ↔
  match x, y with
  | S754_zero _, S754_zero _ => True
  | S754_infinity a, S754_infinity b => a = b
  | S754_finite s m e, S754_finite s' m' e' => s = s' ∧ m = m' ∧ e = e'
  | _, _ => False
  end.
Proof.
  unfold SFeqb, SFcompare.
  destruct x as [a|a| |a m e], y as [b|b| |b m' e'];
    try (destruct a); try (destruct b); try (split; (done || by intros [])).
  all: change (PosDef.Pos.compare_cont Eq m m') with (Pos.compare m m');
    destruct (Z.compare_spec e e'), (Pos.compare_spec m m'); simpl;
    split; (done || (intros (? & ? & ?); lia) || (intros; subst; done)).
Qed.

Lemma number_refl (x : spec_float) : Js.number_same_value_zero x x = true.
Proof.
  destruct x; simpl; try done; by apply SFeqb_true_iff.
Qed.

Lemma number_sym (x y : spec_float) :
  Js.number_same_value_zero x y = true → Js.number_same_value_zero y x = true.
Proof.
  destruct x, y; simpl; try done; rewrite !SFeqb_true_iff; intuition congruence.
Qed.

Lemma number_trans (x y z : spec_float) :
  Js.number_same_value_zero x y = true → Js.number_same_value_zero y z = true →
  Js.number_same_value_zero x z = true.
Proof.
  destruct x, y, z; simpl; try done; rewrite !SFeqb_true_iff; intuition congruence.
Qed.

Lemma refl (x : JsValue) : Js.same_value_zero x x = true.
Proof.
  destruct x; simpl; try done.
  - by destruct b.
  - apply number_refl.
  - apply String.eqb_refl.
  - apply Nat.eqb_refl.
Qed.

Lemma sym (x y : JsValue) :
  Js.same_value_zero x y = true → Js.same_value_zero y x = true.
Proof.
  destruct x, y; simpl; try done.
  - by destruct b, b0.
  - apply number_sym.
  - by rewrite String.eqb_sym.
  - by rewrite Nat.eqb_sym.
Qed.

Lemma trans (x y z : JsValue) :
  Js.same_value_zero x y = true → Js.same_value_zero y z = true →
  Js.same_value_zero x z = true.
Proof.
  destruct x, y, z; simpl; try done.
  - by destruct b, b0, b1.
  - apply number_trans.
  - rewrite !String.eqb_eq. congruence.
  - rewrite !Nat.eqb_eq. congruence.
Qed.

(** Values that are the same are the same as the same values. *)
Lemma congr_l (x y z : JsValue) :
  Js.same_value_zero x y = true → Js.same_value_zero x z = Js.same_value_zero y z.
Proof.
  intros Hxy.
  destruct (Js.same_value_zero y z) eqn:Hyz.
  - by apply trans with y.
  - destruct (Js.same_value_zero x z) eqn:Hxz; [|done].
    rewrite <- Hyz. symmetry. apply trans with x; [by apply sym | done].
Qed.

Lemma has_congr (seen : JsSet.t) (x y : JsValue) :
  Js.same_value_zero x y = true → JsSet.has seen x = JsSet.has seen y.
Proof.
  intros Hxy. unfold JsSet.has. induction seen as [|v seen IH]; simpl; [done|].
  by rewrite IH, (congr_l x y v).
Qed.

Lemma has_add (seen : JsSet.t) (x y : JsValue) :
  JsSet.has (JsSet.add seen x) y = JsSet.has seen y || Js.same_value_zero y x.
Proof.
  unfold JsSet.add. destruct (JsSet.has seen x) eqn:Hx.
  - destruct (Js.same_value_zero y x) eqn:Hyx; [|by rewrite orb_false_r].
    by rewrite (has_congr seen y x Hyx), Hx.
  - unfold JsSet.has. rewrite existsb_app. simpl. by rewrite orb_false_r.
Qed.

End SameValueZero.

(** ** Running programs *)

Lemma run_bind {A B : Type} (p : Prog A) (f : A → Prog B) (w : World) :
  run (bind p f) w =
  match run p w with
  | Returned a w' => run (f a) w'
  | Thrown e w' => Thrown e w'
  | Suspended r k w' => Suspended r (fun s => bind (k s) f) w'
  end.
Proof.
  revert w. induction p as [a|e|X e k IH|r k IH]; intros w; simpl; try done.
  destruct (handle e w) as [x w']. apply IH.
Qed.

Lemma run_try_catch {A : Type} (p : Prog A) (h : JsValue → Prog A) (w : World) :
  run (try_catch p h) w =
  match run p w with
  | Returned a w' => Returned a w'
  | Thrown e w' => run (h e) w'
  | Suspended r k w' => Suspended r (fun s => try_catch (k s) h) w'
  end.
Proof.
  revert w. induction p as [a|e|X e k IH|r k IH]; intros w; simpl; try done.
  destruct (handle e w) as [x w']. apply IH.
Qed.

Lemma run_get_member (v : JsValue) (m : Member) (w : World) :
  run (get_member v m) w =
  if nullish v then Thrown (JsObjectRef (fresh_addr (heap w))) (alloc type_error_object w)
  else Returned (member_of (heap w) v m) w.
Proof.
  destruct v; try done. simpl.
  destruct (heap w !! a) as [[elems|props]|]; done.
Qed.

(** ** Programs that only read and allocate *)

Lemma grown_refl (w : World) : grown w w.
Proof. done. Qed.

Lemma grown_alloc (o : JsObject) (w : World) : grown w (alloc o w).
Proof.
  repeat split. intros a o' Ha.
  by apply (lookup_weaken (heap w)); [|apply alloc_extends].
Qed.

Lemma grown_trans (w1 w2 w3 : World) : grown w1 w2 → grown w2 w3 → grown w1 w3.
Proof.
  intros (Ht & Hr & Hh) (Ht' & Hr' & Hh').
  split; [congruence|]. split; [congruence|]. intros a o Ha. by apply Hh', Hh.
Qed.

Lemma harmless_ret {A : Type} (a : A) : harmless (mret a).
Proof. intros w. apply grown_refl. Qed.

Lemma harmless_bind {A B : Type} (p : Prog A) (f : A → Prog B) :
  harmless p → (∀ a, harmless (f a)) → harmless (p ≫= f).
Proof.
  intros Hp Hf w. unfold mbind, prog_bind. rewrite run_bind.
  specialize (Hp w). destruct (run p w) as [a w1|e w1|]; try done.
  specialize (Hf a w1). destruct (run (f a) w1); try done; by eapply grown_trans.
Qed.

Lemma harmless_alloc (o : JsObject) : harmless (perform (HeapAlloc o)).
Proof. intros w. apply grown_alloc. Qed.

Lemma harmless_get_member (v : JsValue) (m : Member) : harmless (get_member v m).
Proof.
  intros w. rewrite run_get_member. destruct (nullish v); [apply grown_alloc | apply grown_refl].
Qed.

Lemma harmless_or_else (a : JsValue) (b : Prog JsValue) : harmless b → harmless (or_else a b).
Proof. intros Hb. unfold or_else. destruct (Js.to_boolean a); [apply harmless_ret | done]. Qed.

Lemma harmless_filter_unseen (seen : JsSet.t) (elems : list JsValue) :
  harmless (filter_unseen seen elems).
Proof.
  revert seen. induction elems as [|e rest IH]; intros seen; simpl; [apply harmless_ret|].
  apply harmless_bind; [apply harmless_get_member|]. intros id.
  destruct (JsSet.has seen id); [apply IH|].
  apply harmless_bind; [apply IH|]. intros kept. apply harmless_ret.
Qed.

Lemma harmless_uniqueResults : harmless uniqueResults.
Proof.
  intros w. unfold uniqueResults. simpl.
  destruct (results (this w)) as [| | | | |a]; try apply grown_alloc. simpl.
  destruct (heap w !! a) as [[elems|props]|]; try apply grown_alloc.
  apply (harmless_bind (filter_unseen JsSet.empty elems)
           (fun kept => perform (HeapAlloc (ArrayObj kept)))).
  - apply harmless_filter_unseen.
  - intros kept. apply harmless_alloc.
Qed.

Lemma harmless_array_elements (v : JsValue) : harmless (array_elements v).
Proof.
  intros w. destruct v as [| | | | |a]; try apply grown_alloc. simpl.
  destruct (heap w !! a) as [[elems|props]|]; try apply grown_alloc. apply grown_refl.
Qed.

Lemma harmless_render_card (r : JsValue) : harmless (SearchResults.render_card r).
Proof.
  unfold SearchResults.render_card.
  repeat (apply harmless_bind;
          [first [apply harmless_get_member | apply harmless_or_else, harmless_ret] | intros ?]).
  apply harmless_ret.
Qed.

Lemma harmless_render_cards (rs : list JsValue) : harmless (SearchResults.render_cards rs).
Proof.
  induction rs as [|r rest IH]; simpl; [apply harmless_ret|].
  apply harmless_bind; [apply harmless_render_card | intros c].
  apply harmless_bind; [apply IH | intros cs]. apply harmless_ret.
Qed.

Lemma harmless_render (p : SearchResults.Props) : harmless (SearchResults.render p).
Proof.
  unfold SearchResults.render. apply harmless_bind; [|intros b3; apply harmless_ret].
  destruct (0 <? length (SearchResults.results p))%nat; [|apply harmless_ret].
  apply harmless_bind; [apply harmless_render_cards | intros cs; apply harmless_ret].
Qed.

Lemma harmless_render_App : harmless render_App.
Proof.
  unfold render_App.
  apply harmless_bind; [apply harmless_uniqueResults | intros unique].
  apply harmless_bind; [apply harmless_array_elements | intros elems].
  intros w. simpl. apply harmless_render.
Qed.

(** ** Deduplication *)

Lemma run_filter_unseen (seen : JsSet.t) (elems : list JsValue) (w : World) :
  Forall (fun e => nullish e = false) elems →
  run (filter_unseen seen elems) w = Returned (unseen_entries (heap w) seen elems) w.
Proof.
  intros Hall. revert seen.
  induction Hall as [|e rest He _ IH]; intros seen; simpl; [done|].
  unfold mbind, prog_bind. rewrite run_bind, run_get_member, He.
  fold (pmc_id (heap w) e).
  destruct (JsSet.has seen (pmc_id (heap w) e)); [apply IH|].
  by rewrite run_bind, IH.
Qed.

Lemma unseen_entries_sublist (h : gmap addr JsObject) (seen : JsSet.t) (elems : list JsValue) :
  sublist (unseen_entries h seen elems) elems.
Proof.
  revert seen. induction elems as [|e rest IH]; intros seen; simpl; [done|].
  destruct (JsSet.has seen (pmc_id h e)).
  - by apply sublist_cons.
  - by apply sublist_skip.
Qed.

(** Of the entries with the identifier [k], the first is kept and no other,
    and none when the set has [k] already. *)
Lemma unseen_entries_filter (h : gmap addr JsObject) (k : JsValue)
    (seen : JsSet.t) (elems : list JsValue) :
  List.filter (fun x => Js.same_value_zero k (pmc_id h x)) (unseen_entries h seen elems) =
  if JsSet.has seen k then []
  else take 1 (List.filter (fun x => Js.same_value_zero k (pmc_id h x)) elems).
Proof.
  revert seen. induction elems as [|e rest IH]; intros seen; simpl.
  - by destruct (JsSet.has seen k).
  - destruct (JsSet.has seen (pmc_id h e)) eqn:Hseen;
      destruct (Js.same_value_zero k (pmc_id h e)) eqn:Hk; simpl; rewrite ?Hk.
    + by rewrite IH, (SameValueZero.has_congr seen k _ Hk), Hseen.
    + apply IH.
    + rewrite IH, SameValueZero.has_add, Hk, orb_true_r.
      by rewrite (SameValueZero.has_congr seen k _ Hk), Hseen.
    + by rewrite IH, SameValueZero.has_add, Hk, orb_false_r.
Qed.

Lemma take_1_filter {A : Type} (P : A → bool) (l : list A) :
  take 1 (List.filter P l) = match List.find P l with Some x => [x] | None => [] end.
Proof.
  induction l as [|x l IH]; simpl; [done|]. by destruct (P x).
Qed.

Lemma find_is_Some {A : Type} (P : A → bool) (l : list A) (x : A) :
  x ∈ l → P x = true → is_Some (List.find P l).
Proof.
  induction 1 as [x l|x y l _ IH]; simpl; intros Hx.
  - by rewrite Hx.
  - destruct (P y); [done | by apply IH].
Qed.

(** What [uniqueResults] does on a stored array whose entries can be read. *)
Lemma run_uniqueResults (w : World) (a : addr) (elems : list JsValue) :
  results (this w) = JsObjectRef a →
  heap w !! a = Some (ArrayObj elems) →
  Forall (fun e => nullish e = false) elems →
  run uniqueResults w =
  Returned (JsObjectRef (fresh_addr (heap w)))
           (alloc (ArrayObj (unseen_entries (heap w) JsSet.empty elems)) w).
Proof.
  intros Hres Harr Hall. unfold uniqueResults. simpl. rewrite Hres. simpl.
  rewrite Harr. unfold mbind, prog_bind. by rewrite run_bind, run_filter_unseen.
Qed.

(** C1: on every stored result sequence, duplicates included,
    [uniqueResults] returns an array in which each identifier of the
    sequence occurs exactly once, on the first entry of the sequence that
    carries it (the very entry, whose object is left as it was), the kept
    entries standing in their original order. *)
Theorem uniqueResults_first_occurrences (w : World) (a : addr) (elems : list JsValue) :
  results (this w) = JsObjectRef a →
  heap w !! a = Some (ArrayObj elems) →
  Forall (fun e => nullish e = false) elems →
  ∃ a' kept w',
    run uniqueResults w = Returned (JsObjectRef a') w' ∧
    heap w' !! a' = Some (ArrayObj kept) ∧
    (∀ e, e ∈ elems →
       ∃ first, List.find (same_identifier (heap w) e) elems = Some first ∧
                List.filter (same_identifier (heap w) e) kept = [first]) ∧
    sublist kept elems ∧
    heap w ⊆ heap w'.
Proof.
  intros Hres Harr Hall.
  exists (fresh_addr (heap w)), (unseen_entries (heap w) JsSet.empty elems),
    (alloc (ArrayObj (unseen_entries (heap w) JsSet.empty elems)) w).
  split; [by apply (run_uniqueResults w a elems)|].
  split; [apply alloc_lookup|].
  split; [|split; [apply unseen_entries_sublist | apply alloc_extends]].
  intros e He. unfold same_identifier.
  destruct (find_is_Some (fun x => Js.same_value_zero (pmc_id (heap w) e) (pmc_id (heap w) x))
              elems e He (SameValueZero.refl _)) as [first Hfirst].
  exists first. split; [done|].
  rewrite unseen_entries_filter. simpl. by rewrite take_1_filter, Hfirst.
Qed.

(** C9: when entries of the stored sequence carry no identifier (an object
    without a [pmc_id] property reads as [undefined], and [undefined] is the
    same value as [undefined]), [uniqueResults] keeps the first of them and
    drops every later one. *)
Theorem uniqueResults_one_entry_without_identifier
    (w : World) (a : addr) (elems : list JsValue) :
  results (this w) = JsObjectRef a →
  heap w !! a = Some (ArrayObj elems) →
  Forall (fun e => nullish e = false) elems →
  (∀ b props, heap w !! b = Some (PlainObj props) → props !! "pmc_id" = None →
     no_identifier (heap w) (JsObjectRef b) = true) ∧
  ∃ a' kept w',
    run uniqueResults w = Returned (JsObjectRef a') w' ∧
    heap w' !! a' = Some (ArrayObj kept) ∧
    List.filter (no_identifier (heap w)) kept =
    take 1 (List.filter (no_identifier (heap w)) elems).
Proof.
  intros Hres Harr Hall. split.
  - intros b props Hb Hnone. unfold no_identifier, pmc_id, member_of.
    rewrite Hb. simpl. by rewrite Hnone.
  - exists (fresh_addr (heap w)), (unseen_entries (heap w) JsSet.empty elems),
      (alloc (ArrayObj (unseen_entries (heap w) JsSet.empty elems)) w).
    split; [by apply (run_uniqueResults w a elems)|].
    split; [apply alloc_lookup|].
    unfold no_identifier. by rewrite unseen_entries_filter.
Qed.

(** C10: evaluating [uniqueResults] in any state changes none of [results],
    [summary], [loading] and [searched], leaves every object of the heap as
    it was (the stored array among them) and shows nothing to an observer;
    what it returns is an array at an address that held no object. *)
Theorem uniqueResults_leaves_state (w : World) :
  match run uniqueResults w with
  | Returned v w' =>
      grown w w' ∧
      ∃ a' kept, v = JsObjectRef a' ∧ heap w !! a' = None ∧
                 heap w' !! a' = Some (ArrayObj kept)
  | Thrown _ w' => grown w w'
  | Suspended _ _ _ => False
  end.
Proof.
  unfold uniqueResults. simpl.
  destruct (results (this w)) as [| | | | |a]; try apply grown_alloc. simpl.
  destruct (heap w !! a) as [[elems|props]|]; try apply grown_alloc.
  unfold mbind, prog_bind. rewrite run_bind.
  pose proof (harmless_filter_unseen JsSet.empty elems w) as Hgrown.
  destruct (run (filter_unseen JsSet.empty elems) w) as [kept w1|e w1|]; try done.
  simpl. split.
  - eapply grown_trans; [done | apply grown_alloc].
  - exists (fresh_addr (heap w1)), kept. split; [done|]. split; [|apply alloc_lookup].
    destruct Hgrown as (_ & _ & Hheap).
    destruct (heap w !! fresh_addr (heap w1)) as [o|] eqn:E; [|done].
    apply Hheap in E. by rewrite fresh_addr_None in E.
Qed.

(** ** The search handler *)

(** One step of a symbolic run: the equations of [run], then a case on a
    test the run is stuck at. *)
Ltac run_simpl :=
  first
    [ rewrite run_bind
    | rewrite run_try_catch
    | rewrite run_get_member
    | progress unfold or_else, empty_array, mbind, prog_bind, mret, prog_ret
    | progress simpl ].

Ltac run_step :=
  first
    [ run_simpl
    | match goal with
      | |- context [if nullish ?v then _ else _] => destruct (nullish v) eqn:?
      | |- context [if Js.to_boolean ?v then _ else _] => destruct (Js.to_boolean v) eqn:?
      end ].

Ltac run_cases := repeat run_step.

Lemma loading_writes_snoc (t : list Event) (ev : Event) :
  loading_writes (t ++ [ev]) =
  loading_writes t ++ match ev with EvSetLoading b => [b] | _ => [] end.
Proof. unfold loading_writes. rewrite omap_app. by destruct ev. Qed.

Lemma requests_snoc (t : list Event) (ev : Event) :
  requests (t ++ [ev]) =
  requests t ++ match ev with EvRequest r => [r] | _ => [] end.
Proof. unfold requests. rewrite omap_app. by destruct ev. Qed.

(** C3: within one submission, [handleSearch] sets the loading flag before
    it issues the request, and from the settling of the request on, fulfilled
    or rejected, it writes the flag exactly once, with [false], as the last
    thing it does, and issues no further request. *)
Theorem handleSearch_loading_flag (query : JsValue) (w : World) :
  ∃ r k w1,
    run (handleSearch query) w = Suspended r k w1 ∧
    trace w1 = trace w ++ [EvSetLoading true; EvSetSearched true; EvRequest r] ∧
    loading (this w1) = true ∧
    ∀ (s : Settled) (w2 : World),
      ∃ w3,
        run (k s) w2 = Returned tt w3 ∧
        loading_writes (trace w3) = loading_writes (trace w2) ++ [false] ∧
        requests (trace w3) = requests (trace w2) ∧
        last (trace w3) = Some (EvSetLoading false) ∧
        loading (this w3) = false.
Proof.
  eexists _, _, _. split; [reflexivity|].
  split. { simpl. rewrite <- !app_assoc. reflexivity. }
  split; [reflexivity|].
  intros s w2. destruct s as [response|e]; run_cases.
  all: eexists; (split; [reflexivity|]); simpl.
  all: rewrite ?loading_writes_snoc, ?requests_snoc, ?last_snoc, ?app_nil_r; by simpl.
Qed.

(** C8: [handleSearch] never throws to its caller. It suspends at the
    request, and however the request settles it ends normally with the
    loading flag cleared; when the settlement hands it no object to read
    (a rejection, a missing response, a body that is [null], [undefined] or
    a primitive), it ends with [results] and [summary] empty. *)
Theorem handleSearch_never_throws (query : JsValue) (w : World) (s : Settled) (w2 : World) :
  ∃ r k w1,
    run (handleSearch query) w = Suspended r k w1 ∧
    ∃ w3,
      run (k s) w2 = Returned tt w3 ∧
      loading (this w3) = false ∧
      if without_body (heap w2) s then empty_handed w3 else True.
Proof.
  eexists _, _, _. split; [reflexivity|].
  destruct s as [response|e]; unfold without_body; run_cases.
  all: eexists; (split; [reflexivity|]); (split; [reflexivity|]).
  all: try match goal with
           | |- if negb (is_object ?v) then _ else _ => destruct v; try done
           end.
  all: simpl; (split; [|done]); eexists; (split; [done|]); apply lookup_insert_eq.
Qed.

(** What the rest of [handleSearch] does with a response whose body is an
    object with fields of the declared types. *)
Lemma resumed_fulfilled
    (query : JsValue) (w : World) (response : JsValue) (w2 : World)
    (d : addr) (props : gmap string JsValue) :
  nullish response = false →
  member_of (heap w2) response M_data = JsObjectRef d →
  heap w2 !! d = Some (PlainObj props) →
  (∀ v, props !! "results" = Some v → is_array (heap w2) v) →
  (∀ v, props !! "summary" = Some v → ∃ t, v = JsString t) →
  ∃ w3,
    resumed (run (handleSearch query) w) (Fulfilled response) w2 = Returned tt w3 ∧
    match props !! "results" with
    | Some v => results (this w3) = v ∧ is_array (heap w3) v
    | None => ∃ a, results (this w3) = JsObjectRef a ∧ heap w2 !! a = None ∧
                   heap w3 !! a = Some (ArrayObj [])
    end ∧
    summary (this w3) = default (JsString "") (props !! "summary") ∧
    (∀ a o, heap w2 !! a = Some o → heap w3 !! a = Some o) ∧
    loading (this w3) = false ∧ searched (this w3) = searched (this w2).
Proof.
  intros Hresp Hdata Hd Hres Hsum.
  assert (Hfresh : fresh_addr (heap w2) ≠ d).
  { intros E. pose proof (fresh_addr_None (heap w2)) as F. by rewrite E, Hd in F. }
  assert (Hgrow : ∀ o' a o, heap w2 !! a = Some o →
                    <[fresh_addr (heap w2) := o']> (heap w2) !! a = Some o).
  { intros o' a o Ha. rewrite lookup_insert_ne; [done|].
    intros <-. by rewrite fresh_addr_None in Ha. }
  assert (Hsummary :
            Js.to_boolean (default JsUndefined (props !! "summary")) = true ∧
            default JsUndefined (props !! "summary") = default (JsString "") (props !! "summary")
            ∨ Js.to_boolean (default JsUndefined (props !! "summary")) = false ∧
              default (JsString "") (props !! "summary") = JsString "").
  { destruct (props !! "summary") as [v|] eqn:E; [|by right].
    destruct (Hsum v eq_refl) as [t ->]. simpl.
    destruct (String.eqb_spec t ""); [right; by subst | by left]. }
  simpl. unfold mbind, prog_bind.
  rewrite run_bind, run_try_catch, run_bind, run_get_member, Hresp, Hdata.
  repeat run_simpl. rewrite Hd. simpl.
  destruct (props !! "results") as [v|] eqn:Eres.
  - destruct (Hres v eq_refl) as (ar & elems & -> & Har).
    repeat run_simpl. rewrite Hd. simpl.
    destruct Hsummary as [[-> ->]|[-> ->]]; simpl;
      (eexists; split; [reflexivity|]); simpl; repeat split; try done;
      by exists ar, elems.
  - repeat run_simpl. rewrite lookup_insert_ne, Hd by done. simpl.
    destruct Hsummary as [[-> ->]|[-> ->]]; simpl;
      (eexists; split; [reflexivity|]); simpl.
    all: split; [eexists; split; [done|]; split;
                   [apply fresh_addr_None | apply lookup_insert_eq]|].
    all: split; [done|]. all: split; [apply Hgrow | done].
Qed.

(** C5: when the request is fulfilled with a response whose body is an
    object, [results] becomes the body's [results] array itself, or a new
    empty array when the body has no such field, and [summary] becomes the
    body's [summary] string, or the empty string when the body has no such
    field; no object of the heap is changed. *)
Theorem handleSearch_success
    (query : JsValue) (w : World) (response : JsValue) (w2 : World)
    (d : addr) (props : gmap string JsValue) :
  nullish response = false →
  member_of (heap w2) response M_data = JsObjectRef d →
  heap w2 !! d = Some (PlainObj props) →
  (∀ v, props !! "results" = Some v → is_array (heap w2) v) →
  (∀ v, props !! "summary" = Some v → ∃ t, v = JsString t) →
  ∃ w3,
    resumed (run (handleSearch query) w) (Fulfilled response) w2 = Returned tt w3 ∧
    match props !! "results" with
    | Some v => results (this w3) = v ∧ is_array (heap w3) v
    | None => ∃ a, results (this w3) = JsObjectRef a ∧ heap w2 !! a = None ∧
                   heap w3 !! a = Some (ArrayObj [])
    end ∧
    summary (this w3) = default (JsString "") (props !! "summary") ∧
    ∀ a o, heap w2 !! a = Some o → heap w3 !! a = Some o.
Proof.
  intros Hresp Hdata Hd Hres Hsum.
  destruct (resumed_fulfilled query w response w2 d props Hresp Hdata Hd Hres Hsum)
    as (w3 & Hrun & Hr & Hs & Hh & _).
  by exists w3.
Qed.

(** ** A failed search looks like an empty one *)

Lemma empty_response_spec (w : World) :
  ∃ a1 a2,
    nullish (empty_response w).1 = false ∧
    member_of (heap (empty_response w).2) (empty_response w).1 M_data = JsObjectRef a2 ∧
    heap (empty_response w).2 !! a2 =
      Some (PlainObj {[ "results" := JsObjectRef a1; "summary" := JsString "" ]}) ∧
    heap (empty_response w).2 !! a1 = Some (ArrayObj []) ∧
    this (empty_response w).2 = this w.
Proof.
  unfold empty_response. simpl.
  set (h1 := <[fresh_addr (heap w) := ArrayObj []]> (heap w)).
  set (o2 := PlainObj {[ "results" := JsObjectRef (fresh_addr (heap w)); "summary" := JsString "" ]}).
  set (h2 := <[fresh_addr h1 := o2]> h1).
  assert (H1 : h1 !! fresh_addr (heap w) = Some (ArrayObj [])) by apply lookup_insert_eq.
  assert (H2 : h2 !! fresh_addr h1 = Some o2) by apply lookup_insert_eq.
  assert (H12 : h2 !! fresh_addr (heap w) = Some (ArrayObj [])).
  { unfold h2. rewrite lookup_insert_ne; [done|].
    intros E. pose proof (fresh_addr_None h1) as F. by rewrite E, H1 in F. }
  assert (Hne : ∀ a o, h2 !! a = Some o → fresh_addr h2 ≠ a).
  { intros a o Ha E. pose proof (fresh_addr_None h2) as F. by rewrite E, Ha in F. }
  exists (fresh_addr (heap w)), (fresh_addr h1).
  split; [done|]. rewrite lookup_insert_eq. simpl. rewrite lookup_singleton_eq. simpl.
  split; [done|].
  rewrite !lookup_insert_ne by eauto. done.
Qed.

(** What the template shows in a world left empty-handed. *)
Lemma run_render_App_empty_handed (w : World) :
  empty_handed w →
  ∃ w', run render_App w =
        Returned ((if loading (this w) then [SearchResults.LoadingBlock] else []) ++
                  (if negb (loading (this w)) && searched (this w)
                   then [SearchResults.NoResultsBlock] else []))
                 w'.
Proof.
  intros [(a & Hres & Harr) Hsum].
  unfold render_App, mbind, prog_bind.
  rewrite run_bind, (run_uniqueResults w a []) by done.
  rewrite run_bind. simpl. rewrite lookup_insert_eq. simpl. rewrite Hsum. simpl.
  eexists. f_equal. by destruct (loading (this w)), (searched (this w)).
Qed.

(** C2: whatever the state when a request fails, the rest of
    [handleSearch] leaves [results] an empty array and [summary] the empty
    string; and the template then shows what it shows after a response with
    no result and no summary, the "no results" message alone, so that the
    failure is no state of its own in the view. *)
Theorem handleSearch_failure (query : JsValue) (w : World) (e : JsValue) (w2 : World) :
  ∃ w3 w3' blocks wr wr',
    resumed (run (handleSearch query) w) (Rejected e) w2 = Returned tt w3 ∧
    empty_handed w3 ∧
    resumed (run (handleSearch query) w)
            (Fulfilled (empty_response w2).1) (empty_response w2).2 = Returned tt w3' ∧
    run render_App w3 = Returned blocks wr ∧
    run render_App w3' = Returned blocks wr' ∧
    blocks = if searched (this w2) then [SearchResults.NoResultsBlock] else [].
Proof.
  destruct (empty_response_spec w2) as (a1 & a2 & Hn & Hdata & Ha2 & Ha1 & Hthis).
  destruct (resumed_fulfilled query w _ _ a2 _ Hn Hdata Ha2)
    as (w3' & Hrun' & Hr' & Hs' & Hh' & Hl' & Hsd').
  { intros v. rewrite lookup_insert_eq. intros [= <-]. by exists a1, []. }
  { intros v. rewrite lookup_insert_ne, lookup_singleton_eq by done. intros [= <-]. by eexists. }
  rewrite lookup_insert_eq in Hr'. destruct Hr' as [Hr' _].
  rewrite lookup_insert_ne, lookup_singleton_eq in Hs' by done. simpl in Hs'.
  assert (He' : empty_handed w3').
  { split; [|done]. exists a1. split; [done|]. by apply Hh'. }
  destruct (run_render_App_empty_handed w3' He') as [wr' Hrender'].
  rewrite Hl', Hsd', Hthis in Hrender'. simpl in Hrender'.
  set (w3 := world_of (resumed (run (handleSearch query) w) (Rejected e) w2)).
  assert (Hrun : resumed (run (handleSearch query) w) (Rejected e) w2 = Returned tt w3) by done.
  assert (He : empty_handed w3).
  { split; [|done]. eexists. split; [done|]. apply lookup_insert_eq. }
  destruct (run_render_App_empty_handed w3 He) as [wr Hrender].
  simpl in Hrender.
  exists w3, w3', (if searched (this w2) then [SearchResults.NoResultsBlock] else []), wr, wr'.
  done.
Qed.

(** ** The HTTP client *)

(** C6: for every query string, [searchAPI] issues one request, a POST to
    [/search] under the base address of [api], whose body is a new object
    with the properties [query] and [top_k], [top_k] being 10 when no limit
    is passed; when the request is fulfilled with a response object it
    returns the [data] of the response as it is, and does nothing else. *)
Theorem searchAPI_request
    (query : string) (topK : JsValue) (w : World)
    (a : addr) (response : gmap string JsValue) (w2 : World) :
  heap w2 !! a = Some (PlainObj response) →
  ∃ body k w1,
    run (searchAPI (JsString query) topK) w =
      Suspended {| req_method := POST; req_baseURL := "http://localhost:5001/api";
                   req_url := "/search"; req_data := JsObjectRef body |} k w1 ∧
    heap w !! body = None ∧
    heap w1 !! body =
      Some (PlainObj {[ "query" := JsString query;
                        "top_k" := match topK with
                                   | JsUndefined => JsNumber number_10
                                   | _ => topK
                                   end ]}) ∧
    requests (trace w1) =
      requests (trace w) ++
      [{| req_method := POST; req_baseURL := "http://localhost:5001/api";
          req_url := "/search"; req_data := JsObjectRef body |}] ∧
    run (k (Fulfilled (JsObjectRef a))) w2 =
      Returned (default JsUndefined (response !! "data")) w2.
Proof.
  intros Ha. eexists _, _, _. split; [reflexivity|].
  split; [apply fresh_addr_None|]. split; [apply lookup_insert_eq|].
  split; [simpl; by rewrite requests_snoc|].
  simpl. by rewrite Ha.
Qed.

(** ** The results view *)

(** C7: the "no results" block is rendered exactly when [loading] is
    false, the [results] handed to the view are empty and [searched] is
    true. *)
Theorem no_results_block_iff (p : SearchResults.Props) (w : World) :
  (∃ blocks w', run (SearchResults.render p) w = Returned blocks w' ∧
                SearchResults.NoResultsBlock ∈ blocks) ↔
  SearchResults.loading p = false ∧ SearchResults.results p = [] ∧
  SearchResults.searched p = true.
Proof.
  unfold SearchResults.render, mbind, prog_bind. rewrite run_bind. split.
  - intros (blocks & w' & Hrun & Hin). apply list_elem_of_In in Hin.
    destruct (SearchResults.results p) as [|r rest] eqn:Hres; simpl in Hrun.
    + injection Hrun as <- _.
      destruct (SearchResults.loading p), (SearchResults.searched p),
        (Js.to_boolean (SearchResults.summary p)); simpl in Hin;
        intuition discriminate.
    + rewrite run_bind in Hrun.
      destruct (run (SearchResults.render_card r ≫= _) w) as [cs w1|e w1|]; try done.
      simpl in Hrun. injection Hrun as <- _.
      rewrite andb_false_r in Hin.
      destruct (SearchResults.loading p), (Js.to_boolean (SearchResults.summary p));
        simpl in Hin; intuition discriminate.
  - intros (-> & -> & ->). simpl. eexists _, _. split; [done|].
    apply list_elem_of_In.
    destruct (Js.to_boolean (SearchResults.summary p)); simpl; auto.
Qed.

(** ** The searched flag *)

Lemma handleSearch_suspends (query : JsValue) (w : World) :
  ∃ r k w1,
    run (handleSearch query) w = Suspended r k w1 ∧
    searched (this w1) = true ∧ keeps_searched k.
Proof.
  eexists _, _, _. split; [reflexivity|]. split; [reflexivity|].
  intros s w2. destruct s as [response|e]; run_cases.
  all: eexists; split; [reflexivity|]; reflexivity.
Qed.

Lemma render_App_this (w : World) : this (world_of (run render_App w)) = this w.
Proof.
  pose proof (harmless_render_App w) as H.
  destruct (run render_App w); try done; apply H.
Qed.

Lemma step_settled_pending (sys : System) (op : Op) :
  settled_pending sys → settled_pending (step sys op).
Proof.
  unfold settled_pending. intros Hinv. destruct op as [query|i objs s|]; unfold step; [| |done].
  - destruct (handleSearch_suspends query (world sys)) as (r & k & w1 & -> & _ & Hk).
    simpl. apply Forall_app. split; [done|]. by apply Forall_singleton.
  - destruct (pending sys !! i) as [k|] eqn:Hi; [|done].
    destruct (Forall_lookup_1 _ _ _ _ Hinv Hi s (receive objs (world sys)))
      as (w' & -> & _).
    simpl. by apply Forall_delete.
Qed.

Lemma step_searched (sys : System) (op : Op) :
  settled_pending sys →
  Bool.le (searched (this (world sys))) (searched (this (world (step sys op)))).
Proof.
  intros Hinv. destruct op as [query|i objs s|]; unfold step.
  - destruct (handleSearch_suspends query (world sys)) as (r & k & w1 & -> & Hs & _).
    simpl. rewrite Hs. by destruct (searched (this (world sys))).
  - destruct (pending sys !! i) as [k|] eqn:Hi; [|by destruct (searched (this (world sys)))].
    destruct (Forall_lookup_1 _ _ _ _ Hinv Hi s (receive objs (world sys)))
      as (w' & -> & Hs).
    simpl. rewrite Hs. simpl. by destruct (searched (this (world sys))).
  - cbn [world]. rewrite render_App_this. by destruct (searched (this (world sys))).
Qed.

Lemma exec_settled_pending (ops : list Op) (sys : System) :
  settled_pending sys → settled_pending (exec ops sys).
Proof.
  revert sys. induction ops as [|op ops IH]; intros sys Hinv; simpl; [done|].
  by apply IH, step_settled_pending.
Qed.

Lemma exec_searched (ops : list Op) (sys : System) :
  settled_pending sys →
  Bool.le (searched (this (world sys))) (searched (this (world (exec ops sys)))).
Proof.
  revert sys. induction ops as [|op ops IH]; intros sys Hinv; simpl.
  - by destruct (searched (this (world sys))).
  - pose proof (step_searched sys op Hinv) as H1.
    pose proof (IH (step sys op) (step_settled_pending sys op Hinv)) as H2.
    destruct (searched (this (world sys))); [|done]. simpl in *.
    by rewrite H1 in H2.
Qed.

Lemma created_settled_pending : settled_pending created.
Proof. by apply Forall_nil. Qed.

(** C4: [searched] is a one-way latch. A submission sets it, in whatever
    state; once some submission has happened it is true after every further
    run of submissions, settlements (failed ones included) and renderings;
    and along every run from the creation of the component it never goes
    from true to false. *)
Theorem searched_is_a_latch :
  (∀ sys query, searched (this (world (step sys (Submit query)))) = true) ∧
  (∀ ops1 query ops2,
     searched (this (world (exec (ops1 ++ Submit query :: ops2) created))) = true) ∧
  (∀ ops1 ops2,
     Bool.le (searched (this (world (exec ops1 created))))
             (searched (this (world (exec (ops1 ++ ops2) created))))).
Proof.
  assert (Hsubmit : ∀ sys query, searched (this (world (step sys (Submit query)))) = true).
  { intros sys query. unfold step.
    by destruct (handleSearch_suspends query (world sys)) as (r & k & w1 & -> & Hs & _). }
  split; [done|]. split.
  - intros ops1 query ops2. unfold exec. rewrite foldl_app. simpl.
    fold (exec ops1 created). fold (exec ops2 (step (exec ops1 created) (Submit query))).
    pose proof (exec_searched ops2 (step (exec ops1 created) (Submit query))) as H.
    rewrite Hsubmit in H. apply H.
    apply step_settled_pending, exec_settled_pending, created_settled_pending.
  - intros ops1 ops2. unfold exec. rewrite foldl_app.
    apply exec_searched, exec_settled_pending, created_settled_pending.
Qed.

(** ** The properties at the sample worlds *)

Lemma uniqueResults_first_occurrences_stored_duplicates :
  ∃ a' kept w',
    run uniqueResults stored_duplicates = Returned (JsObjectRef a') w' ∧
    heap w' !! a' = Some (ArrayObj kept) ∧
    (∀ e, e ∈ [JsObjectRef 4; JsObjectRef 5; JsObjectRef 6; JsObjectRef 7] →
       ∃ first,
         List.find (same_identifier (heap stored_duplicates) e)
           [JsObjectRef 4; JsObjectRef 5; JsObjectRef 6; JsObjectRef 7] = Some first ∧
         List.filter (same_identifier (heap stored_duplicates) e) kept = [first]) ∧
    sublist kept [JsObjectRef 4; JsObjectRef 5; JsObjectRef 6; JsObjectRef 7] ∧
    heap stored_duplicates ⊆ heap w'.
Proof.
  apply (uniqueResults_first_occurrences stored_duplicates 3
           [JsObjectRef 4; JsObjectRef 5; JsObjectRef 6; JsObjectRef 7]).
  - reflexivity.
  - vm_compute. reflexivity.
  - repeat constructor.
Defined.

Lemma uniqueResults_one_entry_without_identifier_stored_duplicates :
  (∀ b props, heap stored_duplicates !! b = Some (PlainObj props) →
     props !! "pmc_id" = None →
     no_identifier (heap stored_duplicates) (JsObjectRef b) = true) ∧
  ∃ a' kept w',
    run uniqueResults stored_duplicates = Returned (JsObjectRef a') w' ∧
    heap w' !! a' = Some (ArrayObj kept) ∧
    List.filter (no_identifier (heap stored_duplicates)) kept =
    take 1 (List.filter (no_identifier (heap stored_duplicates))
              [JsObjectRef 4; JsObjectRef 5; JsObjectRef 6; JsObjectRef 7]).
Proof.
  apply (uniqueResults_one_entry_without_identifier stored_duplicates 3
           [JsObjectRef 4; JsObjectRef 5; JsObjectRef 6; JsObjectRef 7]).
  - reflexivity.
  - vm_compute. reflexivity.
  - repeat constructor.
Defined.

Lemma handleSearch_success_arrived_PMC1 :
  ∃ w3,
    resumed (run (handleSearch (JsString "cancer treatment")) (world created))
            (Fulfilled (JsObjectRef 1)) arrived_PMC1 = Returned tt w3 ∧
    match body_PMC1 !! "results" with
    | Some v => results (this w3) = v ∧ is_array (heap w3) v
    | None => ∃ a, results (this w3) = JsObjectRef a ∧ heap arrived_PMC1 !! a = None ∧
                   heap w3 !! a = Some (ArrayObj [])
    end ∧
    summary (this w3) = default (JsString "") (body_PMC1 !! "summary") ∧
    ∀ a o, heap arrived_PMC1 !! a = Some o → heap w3 !! a = Some o.
Proof.
  apply (handleSearch_success (JsString "cancer treatment") (world created)
           (JsObjectRef 1) arrived_PMC1 2 body_PMC1).
  - reflexivity.
  - vm_compute. reflexivity.
  - vm_compute. reflexivity.
  - intros v Hv. vm_compute in Hv. injection Hv as <-.
    exists 3, [JsObjectRef 4; JsObjectRef 5]. split; [reflexivity | vm_compute; reflexivity].
  - intros v Hv. vm_compute in Hv. injection Hv as <-. exists "S". reflexivity.
Defined.

Lemma searchAPI_request_arrived_PMC1 :
  ∃ body k w1,
    run (searchAPI (JsString "cancer treatment") JsUndefined) (world created) =
      Suspended {| req_method := POST; req_baseURL := "http://localhost:5001/api";
                   req_url := "/search"; req_data := JsObjectRef body |} k w1 ∧
    heap (world created) !! body = None ∧
    heap w1 !! body =
      Some (PlainObj {[ "query" := JsString "cancer treatment";
                        "top_k" := JsNumber number_10 ]}) ∧
    requests (trace w1) =
      requests (trace (world created)) ++
      [{| req_method := POST; req_baseURL := "http://localhost:5001/api";
          req_url := "/search"; req_data := JsObjectRef body |}] ∧
    run (k (Fulfilled (JsObjectRef 1))) arrived_PMC1 =
      Returned (default JsUndefined (response_PMC1 !! "data")) arrived_PMC1.
Proof.
  apply (searchAPI_request "cancer treatment" JsUndefined (world created)
           1 response_PMC1 arrived_PMC1).
  vm_compute. reflexivity.
Defined.

(** The scenario of the duplicated PMC1: one card, of the first entry. *)
Example render_after_PMC1 :
  match resumed (run (handleSearch (JsString "cancer treatment")) (world created))
                (Fulfilled (JsObjectRef 1)) arrived_PMC1 with
  | Returned _ w =>
      match run render_App w with
      | Returned blocks _ =>
          blocks =
          [SearchResults.SummaryBlock (JsString "S");
           SearchResults.ResultsBlock
             [{| SearchResults.key := JsString "PMC1";
                 SearchResults.title := JsString "A";
                 SearchResults.authors := JsString "Unknown Authors";
                 SearchResults.year := JsNumber number_2020;
                 SearchResults.journal := JsString "J1";
                 SearchResults.href :=
                   [SearchResults.Text "https://pmc.ncbi.nlm.nih.gov/articles/";
                    SearchResults.Interpolated (JsString "PMC1");
                    SearchResults.Text "/"];
                 SearchResults.link_text := JsString "PMC1" |}]]
      | _ => False
      end
  | _ => False
  end.
Proof. vm_compute. reflexivity. Qed.

(** An entry that is [null] makes the deduplication throw. *)
Example uniqueResults_null_entry :
  match run uniqueResults
          {| this := {| results := JsObjectRef 1; summary := JsString "";
                        loading := false; searched := true |};
             heap := {[ 1 := ArrayObj [JsNull] ]}; trace := [] |} with
  | Thrown _ _ => True
  | _ => False
  end.
Proof. vm_compute. exact I. Qed.

(** A present field that is falsy takes the default as a missing one does. *)
Example handleSearch_null_fields :
  match resumed (run (handleSearch (JsString "q")) (world created))
                (Fulfilled (JsObjectRef 1))
                {| this := this arrived_PMC1;
                   heap := {[ 1 := PlainObj {[ "data" := JsObjectRef 2 ]};
                              2 := PlainObj {[ "results" := JsNull; "summary" := JsNull ]} ]};
                   trace := [] |} with
  | Returned _ w =>
      results (this w) = JsObjectRef 3 ∧ heap w !! 3 = Some (ArrayObj []) ∧
      summary (this w) = JsString ""
  | _ => False
  end.
Proof. vm_compute. repeat split. Qed.

(** * Further properties *)

(** ** More on the deduplication *)

(** An array allocated at the fresh address changes no member that is read. *)
Lemma member_of_alloc_array (h : gmap addr JsObject) (l : list JsValue)
    (v : JsValue) (m : Member) :
  member_of (<[fresh_addr h := ArrayObj l]> h) v m = member_of h v m.
Proof.
  destruct v as [| | | | |a]; try done. simpl.
  destruct (decide (fresh_addr h = a)) as [<-|Hne].
  - by rewrite lookup_insert_eq, fresh_addr_None.
  - by rewrite lookup_insert_ne.
Qed.

Lemma unseen_entries_ext (h h' : gmap addr JsObject) (seen : JsSet.t) (elems : list JsValue) :
  (∀ e, pmc_id h e = pmc_id h' e) →
  unseen_entries h seen elems = unseen_entries h' seen elems.
Proof.
  intros Hext. revert seen. induction elems as [|e rest IH]; intros seen; simpl; [done|].
  rewrite Hext. destruct (JsSet.has seen (pmc_id h' e)); [apply IH | by rewrite IH].
Qed.

(** No kept entry has an identifier the set had. *)
Lemma unseen_entries_unseen (h : gmap addr JsObject) (seen : JsSet.t) (elems : list JsValue) :
  Forall (fun e => JsSet.has seen (pmc_id h e) = false) (unseen_entries h seen elems).
Proof.
  revert seen. induction elems as [|e rest IH]; intros seen; simpl; [done|].
  destruct (JsSet.has seen (pmc_id h e)) eqn:Hseen; [apply IH|].
  apply Forall_cons. split; [done|].
  eapply Forall_impl; [apply IH|]. intros x Hx. simpl in Hx.
  rewrite SameValueZero.has_add in Hx. by apply orb_false_elim in Hx as [? _].
Qed.

Lemma has_fmap_false (h : gmap addr JsObject) (v : JsValue) (l : list JsValue) :
  JsSet.has (pmc_id h <$> l) v = false ↔
  Forall (fun x => Js.same_value_zero v (pmc_id h x) = false) l.
Proof.
  unfold JsSet.has. induction l as [|x l IH]; simpl.
  - split; [by constructor | done].
  - rewrite orb_false_iff, IH, Forall_cons. done.
Qed.

Lemma unseen_entries_distinct (h : gmap addr JsObject) (seen : JsSet.t) (elems : list JsValue) :
  distinct_values (pmc_id h <$> unseen_entries h seen elems) = true.
Proof.
  revert seen. induction elems as [|e rest IH]; intros seen; simpl; [done|].
  destruct (JsSet.has seen (pmc_id h e)) eqn:Hseen; [apply IH|].
  simpl. rewrite IH, andb_true_r. apply negb_true_iff, has_fmap_false.
  eapply Forall_impl; [apply unseen_entries_unseen|]. intros x Hx. simpl in Hx.
  rewrite SameValueZero.has_add in Hx. apply orb_false_elim in Hx as [_ Hx].
  destruct (Js.same_value_zero (pmc_id h e) (pmc_id h x)) eqn:E; [|done].
  apply SameValueZero.sym in E. congruence.
Qed.

(** Entries with distinct identifiers, none of them seen, are all kept. *)
Lemma unseen_entries_all (h : gmap addr JsObject) (seen : JsSet.t) (elems : list JsValue) :
  distinct_values (pmc_id h <$> elems) = true →
  Forall (fun e => JsSet.has seen (pmc_id h e) = false) elems →
  unseen_entries h seen elems = elems.
Proof.
  revert seen. induction elems as [|e rest IH]; intros seen Hd Hs; simpl; [done|].
  simpl in Hd. apply andb_true_iff in Hd as [He Hd].
  apply negb_true_iff, has_fmap_false in He.
  apply Forall_cons in Hs as [Hse Hs]. rewrite Hse. f_equal.
  apply IH; [done|].
  apply Forall_forall. intros x Hx. rewrite SameValueZero.has_add.
  rewrite (proj1 (Forall_forall _ _) Hs x Hx). simpl.
  destruct (Js.same_value_zero (pmc_id h x) (pmc_id h e)) eqn:E; [|done].
  apply SameValueZero.sym in E. by rewrite (proj1 (Forall_forall _ _) He x Hx) in E.
Qed.

Lemma unseen_entries_idempotent (h : gmap addr JsObject) (elems : list JsValue) :
  unseen_entries h JsSet.empty (unseen_entries h JsSet.empty elems) =
  unseen_entries h JsSet.empty elems.
Proof.
  apply unseen_entries_all; [apply unseen_entries_distinct|].
  by apply Forall_forall.
Qed.

Lemma unseen_entries_readable (h : gmap addr JsObject) (seen : JsSet.t) (elems : list JsValue) :
  Forall (fun e => nullish e = false) elems →
  Forall (fun e => nullish e = false) (unseen_entries h seen elems).
Proof.
  intros Hall. apply Forall_forall. intros x Hx.
  apply (proj1 (Forall_forall _ _) Hall).
  eapply elem_of_sublist; [done | apply unseen_entries_sublist].
Qed.

(** X1: deduplicating twice is deduplicating once. When the array
    [uniqueResults] returned is stored as [results], [uniqueResults] returns
    an array with the same entries. *)
Theorem uniqueResults_idempotent (w : World) (a : addr) (elems : list JsValue) :
  results (this w) = JsObjectRef a →
  heap w !! a = Some (ArrayObj elems) →
  Forall (fun e => nullish e = false) elems →
  ∃ a1 kept w1,
    run uniqueResults w = Returned (JsObjectRef a1) w1 ∧
    heap w1 !! a1 = Some (ArrayObj kept) ∧
    ∃ a2 w2,
      run uniqueResults (store_results (JsObjectRef a1) w1) = Returned (JsObjectRef a2) w2 ∧
      heap w2 !! a2 = Some (ArrayObj kept).
Proof.
  intros Hres Harr Hall.
  set (kept := unseen_entries (heap w) JsSet.empty elems).
  exists (fresh_addr (heap w)), kept, (alloc (ArrayObj kept) w).
  split; [by apply (run_uniqueResults w a elems)|].
  split; [apply alloc_lookup|].
  eexists _, _. split.
  - apply (run_uniqueResults _ (fresh_addr (heap w)) kept); [done | apply alloc_lookup |].
    by apply unseen_entries_readable.
  - simpl. rewrite lookup_insert_eq. do 2 f_equal.
    rewrite (unseen_entries_ext _ (heap w)).
    + apply unseen_entries_idempotent.
    + intros e. apply member_of_alloc_array.
Qed.

(** X2: [uniqueResults] returns the stored entries unchanged exactly when
    no two of them have the same identifier. *)
Theorem uniqueResults_unchanged_iff_distinct (w : World) (a : addr) (elems : list JsValue) :
  results (this w) = JsObjectRef a →
  heap w !! a = Some (ArrayObj elems) →
  Forall (fun e => nullish e = false) elems →
  ∃ a' kept w',
    run uniqueResults w = Returned (JsObjectRef a') w' ∧
    heap w' !! a' = Some (ArrayObj kept) ∧
    (kept = elems ↔ distinct_values (pmc_id (heap w) <$> elems) = true).
Proof.
  intros Hres Harr Hall.
  exists (fresh_addr (heap w)), (unseen_entries (heap w) JsSet.empty elems),
    (alloc (ArrayObj (unseen_entries (heap w) JsSet.empty elems)) w).
  split; [by apply (run_uniqueResults w a elems)|].
  split; [apply alloc_lookup|]. split.
  - intros <-. apply unseen_entries_distinct.
  - intros Hd. apply unseen_entries_all; [done | by apply Forall_forall].
Qed.

Lemma same_value_zero_eq (x y : JsValue) :
  is_number x = false → Js.same_value_zero x y = true → x = y.
Proof.
  destruct x, y; simpl; try done.
  - intros _ H. by apply eqb_prop in H as ->.
  - intros _ H. by apply String.eqb_eq in H as ->.
  - intros _ H. by apply Nat.eqb_eq in H as ->.
Qed.

Lemma distinct_values_NoDup (l : list JsValue) :
  distinct_values l = true → NoDup l.
Proof.
  induction l as [|v l IH]; simpl; [constructor|].
  intros [Hv Hd]%andb_true_iff. constructor; [|by apply IH].
  intros Hin. apply negb_true_iff in Hv.
  assert (JsSet.has l v = true); [|congruence].
  apply existsb_exists. exists v. split; [by apply list_elem_of_In | apply SameValueZero.refl].
Qed.

(** X3: when no identifier is a number, the identifiers of the entries
    [uniqueResults] returns are pairwise different values, and they are the
    identifiers of the stored entries, none lost. *)
Theorem uniqueResults_identifiers (w : World) (a : addr) (elems : list JsValue) :
  results (this w) = JsObjectRef a →
  heap w !! a = Some (ArrayObj elems) →
  Forall (fun e => nullish e = false) elems →
  Forall (fun e => is_number (pmc_id (heap w) e) = false) elems →
  ∃ a' kept w',
    run uniqueResults w = Returned (JsObjectRef a') w' ∧
    heap w' !! a' = Some (ArrayObj kept) ∧
    NoDup (pmc_id (heap w) <$> kept) ∧
    ∀ v, v ∈ pmc_id (heap w) <$> kept ↔ v ∈ pmc_id (heap w) <$> elems.
Proof.
  intros Hres Harr Hall Hnum.
  set (kept := unseen_entries (heap w) JsSet.empty elems).
  exists (fresh_addr (heap w)), kept, (alloc (ArrayObj kept) w).
  split; [by apply (run_uniqueResults w a elems)|].
  split; [apply alloc_lookup|].
  split; [apply distinct_values_NoDup, unseen_entries_distinct|].
  intros v. split.
  - intros Hv. eapply elem_of_sublist; [done|].
    apply fmap_sublist, unseen_entries_sublist.
  - intros (e & -> & He)%list_elem_of_fmap.
    pose proof (unseen_entries_filter (heap w) (pmc_id (heap w) e) JsSet.empty elems) as Hf.
    simpl in Hf. rewrite take_1_filter in Hf.
    destruct (find_is_Some (fun x => Js.same_value_zero (pmc_id (heap w) e) (pmc_id (heap w) x))
                elems e He (SameValueZero.refl _)) as [first Hfirst].
    rewrite Hfirst in Hf.
    assert (Hin : In first (List.filter
              (fun x => Js.same_value_zero (pmc_id (heap w) e) (pmc_id (heap w) x)) kept)).
    { unfold kept. rewrite Hf. by left. }
    apply filter_In in Hin as [Hin Hsame].
    apply same_value_zero_eq in Hsame;
      [|by apply (proj1 (Forall_forall _ _) Hnum e He)].
    rewrite Hsame. apply list_elem_of_fmap. exists first.
    split; [done | by apply list_elem_of_In].
Qed.

(** The whole of [filter_unseen]: the kept entries, or the [TypeError] of
    the first entry that cannot be read. *)
Lemma run_filter_unseen_total (seen : JsSet.t) (elems : list JsValue) (w : World) :
  run (filter_unseen seen elems) w =
  if forallb (fun e => negb (nullish e)) elems
  then Returned (unseen_entries (heap w) seen elems) w
  else Thrown (JsObjectRef (fresh_addr (heap w))) (alloc type_error_object w).
Proof.
  revert seen. induction elems as [|e rest IH]; intros seen; simpl; [done|].
  unfold mbind, prog_bind. rewrite run_bind, run_get_member.
  destruct (nullish e); simpl; [done|].
  fold (pmc_id (heap w) e).
  destruct (JsSet.has seen (pmc_id (heap w) e)); [apply IH|].
  rewrite run_bind, IH. by destruct (forallb _ rest).
Qed.

Lemma forallb_readable (elems : list JsValue) :
  forallb (fun e => negb (nullish e)) elems = true ↔
  Forall (fun e => nullish e = false) elems.
Proof.
  rewrite forallb_forall, Forall_forall. split; intros H x Hx.
  - apply negb_true_iff, H. by apply list_elem_of_In.
  - apply negb_true_iff, H. by apply list_elem_of_In.
Qed.

Lemma forallb_unreadable (elems : list JsValue) :
  forallb (fun e => negb (nullish e)) elems = false →
  Exists (fun e => nullish e = true) elems.
Proof.
  induction elems as [|e rest IH]; simpl; [done|].
  destruct (nullish e) eqn:He; simpl; [by left | right; by apply IH].
Qed.

(** X4: [uniqueResults] returns exactly when [results] is an array none of
    whose entries is [null] or [undefined]; in every other state it throws
    a new [TypeError]. *)
Theorem uniqueResults_returns_or_throws (w : World) :
  match run uniqueResults w with
  | Returned _ _ =>
      ∃ elems, stored_entries w = Some elems ∧ Forall (fun e => nullish e = false) elems
  | Thrown e w' =>
      (stored_entries w = None ∨
       ∃ elems, stored_entries w = Some elems ∧ Exists (fun e => nullish e = true) elems) ∧
      ∃ b, e = JsObjectRef b ∧ heap w !! b = None ∧ heap w' !! b = Some type_error_object
  | Suspended _ _ _ => False
  end.
Proof.
  assert (Hthrow : ∃ b, JsObjectRef (fresh_addr (heap w)) = JsObjectRef b ∧
                        heap w !! b = None ∧
                        heap (alloc type_error_object w) !! b = Some type_error_object).
  { eexists. split; [done|]. split; [apply fresh_addr_None | apply alloc_lookup]. }
  unfold uniqueResults, stored_entries. simpl.
  destruct (results (this w)) as [| | | | |a]; try (split; [by left | done]). simpl.
  destruct (heap w !! a) as [[elems|props]|]; try (split; [by left | done]).
  unfold mbind, prog_bind. rewrite run_bind, run_filter_unseen_total.
  destruct (forallb (fun e => negb (nullish e)) elems) eqn:Hall; simpl.
  - exists elems. split; [done|]. by apply forallb_readable.
  - split; [|done]. right. exists elems. split; [done|].
    by apply forallb_unreadable.
Qed.

(** X5: [uniqueResults] always keeps the first stored entry; it never
    returns more entries than are stored, and returns none only when none
    is stored. *)
Theorem uniqueResults_keeps_first_entry (w : World) (a : addr) (elems : list JsValue) :
  results (this w) = JsObjectRef a →
  heap w !! a = Some (ArrayObj elems) →
  Forall (fun e => nullish e = false) elems →
  ∃ a' kept w',
    run uniqueResults w = Returned (JsObjectRef a') w' ∧
    heap w' !! a' = Some (ArrayObj kept) ∧
    head kept = head elems ∧
    (length kept ≤ length elems)%nat ∧
    (kept = [] ↔ elems = []).
Proof.
  intros Hres Harr Hall.
  exists (fresh_addr (heap w)), (unseen_entries (heap w) JsSet.empty elems),
    (alloc (ArrayObj (unseen_entries (heap w) JsSet.empty elems)) w).
  split; [by apply (run_uniqueResults w a elems)|].
  split; [apply alloc_lookup|].
  split; [by destruct elems|].
  split; [apply sublist_length, unseen_entries_sublist|].
  by destruct elems.
Qed.

(** ** More on the results view *)

Lemma run_render_card (r : JsValue) (w : World) :
  run (SearchResults.render_card r) w =
  if nullish r then Thrown (JsObjectRef (fresh_addr (heap w))) (alloc type_error_object w)
  else Returned (card_of (heap w) r) w.
Proof.
  unfold SearchResults.render_card, mbind, prog_bind.
  rewrite run_bind, run_get_member. destruct (nullish r) eqn:Hr; [done|].
  repeat (rewrite run_bind, run_get_member, Hr).
  rewrite run_bind. unfold or_else, card_of, pmc_id.
  destruct (Js.to_boolean (member_of (heap w) r M_authors)); simpl;
    by repeat (rewrite run_bind, run_get_member, Hr).
Qed.

Lemma run_render_cards (rs : list JsValue) (w : World) :
  run (SearchResults.render_cards rs) w =
  if forallb (fun e => negb (nullish e)) rs
  then Returned (card_of (heap w) <$> rs) w
  else Thrown (JsObjectRef (fresh_addr (heap w))) (alloc type_error_object w).
Proof.
  induction rs as [|r rest IH]; simpl; [done|].
  unfold mbind, prog_bind. rewrite run_bind, run_render_card.
  destruct (nullish r); simpl; [done|].
  rewrite run_bind, IH. by destruct (forallb _ rest).
Qed.

(** The blocks the view renders; the world is left as it is. *)
Lemma run_render (p : SearchResults.Props) (w : World) :
  run (SearchResults.render p) w =
  if forallb (fun e => negb (nullish e)) (SearchResults.results p)
  then Returned
         ((if SearchResults.loading p then [SearchResults.LoadingBlock] else []) ++
          (if Js.to_boolean (SearchResults.summary p)
           then [SearchResults.SummaryBlock (SearchResults.summary p)] else []) ++
          (match SearchResults.results p with
           | [] => []
           | _ :: _ => [SearchResults.ResultsBlock (card_of (heap w) <$> SearchResults.results p)]
           end) ++
          (if negb (SearchResults.loading p) && (length (SearchResults.results p) =? 0)%nat
              && SearchResults.searched p
           then [SearchResults.NoResultsBlock] else []))
         w
  else Thrown (JsObjectRef (fresh_addr (heap w))) (alloc type_error_object w).
Proof.
  unfold SearchResults.render, mbind, prog_bind. rewrite run_bind.
  destruct (SearchResults.results p) as [|r rest] eqn:Hres; [done|].
  change (0 <? length (r :: rest))%nat with true. cbv iota.
  rewrite run_bind, run_render_cards.
  by destruct (forallb (fun e => negb (nullish e)) (r :: rest)).
Qed.

(** X6: the view renders exactly when no entry of [results] is [null] or
    [undefined], and then without any effect; otherwise reading that entry
    throws a new [TypeError] and no block is rendered. *)
Theorem render_returns_or_throws (p : SearchResults.Props) (w : World) :
  match run (SearchResults.render p) w with
  | Returned _ w' => w' = w ∧ Forall (fun e => nullish e = false) (SearchResults.results p)
  | Thrown e w' =>
      Exists (fun e => nullish e = true) (SearchResults.results p) ∧
      ∃ b, e = JsObjectRef b ∧ heap w !! b = None ∧ heap w' !! b = Some type_error_object
  | Suspended _ _ _ => False
  end.
Proof.
  rewrite run_render.
  destruct (forallb (fun e => negb (nullish e)) (SearchResults.results p)) eqn:Hall.
  - split; [done | by apply forallb_readable].
  - split; [by apply forallb_unreadable|].
    eexists. split; [done|]. split; [apply fresh_addr_None | apply alloc_lookup].
Qed.

(** X7: the loading indicator is rendered exactly when [loading] is true,
    whatever the results, the summary and [searched]. *)
Theorem loading_block_iff (p : SearchResults.Props) (w : World) :
  Forall (fun e => nullish e = false) (SearchResults.results p) →
  ∃ blocks,
    run (SearchResults.render p) w = Returned blocks w ∧
    (SearchResults.LoadingBlock ∈ blocks ↔ SearchResults.loading p = true).
Proof.
  intros Hall. rewrite run_render, (proj2 (forallb_readable _) Hall).
  eexists. split; [done|]. rewrite list_elem_of_In.
  destruct (SearchResults.loading p), (Js.to_boolean (SearchResults.summary p)),
    (SearchResults.results p), (SearchResults.searched p); simpl; intuition discriminate.
Qed.

(** X8: the summary block is rendered exactly when [summary] is truthy (for
    a string: not empty), and it shows that summary. *)
Theorem summary_block_iff (p : SearchResults.Props) (w : World) :
  Forall (fun e => nullish e = false) (SearchResults.results p) →
  ∃ blocks,
    run (SearchResults.render p) w = Returned blocks w ∧
    ∀ text, SearchResults.SummaryBlock text ∈ blocks ↔
            text = SearchResults.summary p ∧ Js.to_boolean (SearchResults.summary p) = true.
Proof.
  intros Hall. rewrite run_render, (proj2 (forallb_readable _) Hall).
  eexists. split; [done|]. intros text. rewrite list_elem_of_In.
  destruct (SearchResults.loading p), (Js.to_boolean (SearchResults.summary p)),
    (SearchResults.results p), (SearchResults.searched p); simpl; intuition congruence.
Qed.


(** X10: the "no results" message never stands beside the loading
    indicator nor beside the list of cards, and at most three of the four
    blocks are rendered at a time. *)
Theorem no_results_block_excludes (p : SearchResults.Props) (w : World) :
  Forall (fun e => nullish e = false) (SearchResults.results p) →
  ∃ blocks,
    run (SearchResults.render p) w = Returned blocks w ∧
    ¬ (SearchResults.NoResultsBlock ∈ blocks ∧ SearchResults.LoadingBlock ∈ blocks) ∧
    ¬ (SearchResults.NoResultsBlock ∈ blocks ∧
       ∃ cards, SearchResults.ResultsBlock cards ∈ blocks) ∧
    (length blocks ≤ 3)%nat.
Proof.
  intros Hall. rewrite run_render, (proj2 (forallb_readable _) Hall).
  eexists. split; [done|]. rewrite !list_elem_of_In.
  setoid_rewrite list_elem_of_In.
  destruct (SearchResults.loading p), (Js.to_boolean (SearchResults.summary p)),
    (SearchResults.results p), (SearchResults.searched p); simpl;
    (split; [|split]); try lia; try (intros [H1 H2]; try destruct H2 as [cards H2];
      simpl in *; intuition discriminate).
Qed.

(** ** The template of the root component *)

Lemma run_uniqueResults_total (w : World) :
  run uniqueResults w =
  match stored_entries w with
  | Some elems =>
      if forallb (fun e => negb (nullish e)) elems
      then Returned (JsObjectRef (fresh_addr (heap w)))
                    (alloc (ArrayObj (unseen_entries (heap w) JsSet.empty elems)) w)
      else Thrown (JsObjectRef (fresh_addr (heap w))) (alloc type_error_object w)
  | None => Thrown (JsObjectRef (fresh_addr (heap w))) (alloc type_error_object w)
  end.
Proof.
  unfold uniqueResults, stored_entries. simpl.
  destruct (results (this w)) as [| | | | |a]; try done. simpl.
  destruct (heap w !! a) as [[elems|props]|]; try done.
  unfold mbind, prog_bind. rewrite run_bind, run_filter_unseen_total.
  by destruct (forallb _ elems).
Qed.

Lemma card_of_alloc_array (h : gmap addr JsObject) (l : list JsValue) (r : JsValue) :
  card_of (<[fresh_addr h := ArrayObj l]> h) r = card_of h r.
Proof. unfold card_of, pmc_id. by rewrite !member_of_alloc_array. Qed.

(** The whole of the template: the blocks, or the [TypeError] of the
    deduplication. *)
Lemma run_render_App (w : World) :
  run render_App w =
  match stored_entries w with
  | Some elems =>
      if forallb (fun e => negb (nullish e)) elems
      then Returned (rendered_blocks w elems)
                    (alloc (ArrayObj (unseen_entries (heap w) JsSet.empty elems)) w)
      else Thrown (JsObjectRef (fresh_addr (heap w))) (alloc type_error_object w)
  | None => Thrown (JsObjectRef (fresh_addr (heap w))) (alloc type_error_object w)
  end.
Proof.
  unfold render_App, mbind, prog_bind. rewrite run_bind, run_uniqueResults_total.
  destruct (stored_entries w) as [elems|]; [|done].
  destruct (forallb (fun e => negb (nullish e)) elems) eqn:Hall; [|done].
  rewrite run_bind. simpl. rewrite lookup_insert_eq. simpl.
  rewrite run_render. simpl.
  rewrite (proj2 (forallb_readable _)); last first.
  { by apply unseen_entries_readable, forallb_readable. }
  unfold rendered_blocks. do 5 f_equal.
  destruct (unseen_entries (heap w) JsSet.empty elems) as [|e rest]; [done|].
  do 2 f_equal. apply list_fmap_ext. intros i x _. apply card_of_alloc_array.
Qed.

(** X11: rendering changes nothing. Whether it ends with blocks or with a
    throw, the template of [App] leaves the four fields, the trace and every
    object of the heap as they were, and it never issues a request. *)
Theorem render_App_changes_nothing (w : World) :
  match run render_App w with
  | Returned _ w' | Thrown _ w' =>
      this w' = this w ∧ trace w' = trace w ∧
      ∀ a o, heap w !! a = Some o → heap w' !! a = Some o
  | Suspended _ _ _ => False
  end.
Proof. apply harmless_render_App. Qed.

(** X12: the template renders exactly when [results] is an array none of
    whose entries is [null] or [undefined]; on anything else that was stored
    (a string, a number, an object that is no array) it throws. *)
Theorem render_App_returns_or_throws (w : World) :
  match run render_App w with
  | Returned blocks _ =>
      ∃ elems, stored_entries w = Some elems ∧
               Forall (fun e => nullish e = false) elems ∧
               blocks = rendered_blocks w elems
  | Thrown _ _ =>
      stored_entries w = None ∨
      ∃ elems, stored_entries w = Some elems ∧ Exists (fun e => nullish e = true) elems
  | Suspended _ _ _ => False
  end.
Proof.
  rewrite run_render_App. destruct (stored_entries w) as [elems|]; [|by left].
  destruct (forallb (fun e => negb (nullish e)) elems) eqn:Hall.
  - exists elems. split; [done|]. split; [by apply forallb_readable | done].
  - right. exists elems. split; [done | by apply forallb_unreadable].
Qed.


(** X14: with stored entries that can be read, the template shows the "no
    results" message exactly when [loading] is false, no entry is stored
    and [searched] is true: the deduplication never empties a list. *)
Theorem render_App_no_results_iff (w : World) (elems : list JsValue) :
  stored_entries w = Some elems →
  Forall (fun e => nullish e = false) elems →
  ∃ blocks w',
    run render_App w = Returned blocks w' ∧
    (SearchResults.NoResultsBlock ∈ blocks ↔
     loading (this w) = false ∧ elems = [] ∧ searched (this w) = true).
Proof.
  intros Hstored Hall. rewrite run_render_App, Hstored, (proj2 (forallb_readable _) Hall).
  eexists _, _. split; [done|]. rewrite list_elem_of_In. unfold rendered_blocks.
  destruct elems as [|e rest]; simpl.
  - destruct (loading (this w)), (Js.to_boolean (summary (this w))), (searched (this w));
      simpl; intuition discriminate.
  - destruct (loading (this w)), (Js.to_boolean (summary (this w))), (searched (this w));
      simpl; intuition discriminate.
Qed.

(** ** More on the search handler *)

Lemma insert_fresh_lookup (h : gmap addr JsObject) (o' : JsObject) (a : addr) (o : JsObject) :
  h !! a = Some o → <[fresh_addr h := o']> h !! a = Some o.
Proof.
  intros Ha. rewrite lookup_insert_ne; [done|].
  intros <-. by rewrite fresh_addr_None in Ha.
Qed.

Lemma console_errors_snoc (t : list Event) (ev : Event) :
  console_errors (t ++ [ev]) =
  console_errors t ++ match ev with EvConsoleError args => [args] | _ => [] end.
Proof. unfold console_errors. rewrite omap_app. by destruct ev. Qed.

(** What every run of the rest of [handleSearch] has in common. *)
Lemma resumed_handleSearch (query : JsValue) (w : World) (s : Settled) (w2 : World) :
  ∃ w3,
    resumed (run (handleSearch query) w) s w2 = Returned tt w3 ∧
    requests (trace w3) = requests (trace w2) ∧
    loading (this w3) = false ∧
    searched (this w3) = searched (this w2) ∧
    (∀ a o, heap w2 !! a = Some o → heap w3 !! a = Some o) ∧
    match s with Rejected _ => empty_handed w3 | Fulfilled _ => True end.
Proof.
  simpl. destruct s as [response|e]; run_cases.
  all: eexists; (split; [reflexivity|]); simpl.
  all: rewrite ?requests_snoc, ?app_nil_r; simpl.
  all: repeat split; try done.
  all: try (intros a o Ha; by repeat apply insert_fresh_lookup).
  eexists. split; [done | apply lookup_insert_eq].
Qed.

(** X15: [handleSearch] sends the query it is given as it is, with no
    check, in one POST to [/search] whose body is a new object
    [{ query, top_k: 10 }]: it never passes a limit of its own. *)
Theorem handleSearch_request (query : JsValue) (w : World) :
  ∃ body k w1,
    run (handleSearch query) w =
      Suspended {| req_method := POST; req_baseURL := "http://localhost:5001/api";
                   req_url := "/search"; req_data := JsObjectRef body |} k w1 ∧
    heap w !! body = None ∧
    heap w1 !! body =
      Some (PlainObj {[ "query" := query; "top_k" := JsNumber number_10 ]}) ∧
    requests (trace w1) =
      requests (trace w) ++
      [{| req_method := POST; req_baseURL := "http://localhost:5001/api";
          req_url := "/search"; req_data := JsObjectRef body |}].
Proof.
  eexists _, _, _. split; [reflexivity|].
  split; [apply fresh_addr_None|]. split; [apply lookup_insert_eq|].
  simpl. by rewrite !requests_snoc, !app_nil_r.
Qed.

(** X16: while the request is in flight the previous results stay in
    place. At the [await], [results] and [summary] are what they were and
    every object is as it was, so the template shows the loading indicator
    together with the cards of the previous search, and no "no results"
    message. *)
Theorem handleSearch_keeps_results_in_flight
    (query : JsValue) (w : World) (elems : list JsValue) :
  stored_entries w = Some elems →
  Forall (fun e => nullish e = false) elems →
  ∃ r k w1 blocks w',
    run (handleSearch query) w = Suspended r k w1 ∧
    results (this w1) = results (this w) ∧
    summary (this w1) = summary (this w) ∧
    stored_entries w1 = Some elems ∧
    run render_App w1 = Returned blocks w' ∧
    SearchResults.LoadingBlock ∈ blocks ∧
    (SearchResults.NoResultsBlock ∉ blocks) ∧
    ((∃ cards, SearchResults.ResultsBlock cards ∈ blocks) ↔ elems ≠ []).
Proof.
  intros Hstored Hall.
  assert (Ho : ∃ r k w1, run (handleSearch query) w = Suspended r k w1 ∧
                         w1 = world_of (run (handleSearch query) w))
    by (by eexists _, _, _).
  destruct Ho as (r & k & w1 & Ho & Hw1).
  assert (Hstored1 : stored_entries w1 = Some elems).
  { rewrite Hw1. unfold stored_entries in *. simpl.
    destruct (results (this w)) as [| | | | |a]; try done.
    destruct (heap w !! a) as [o|] eqn:Ha; [|done].
    by rewrite (insert_fresh_lookup _ _ a o Ha). }
  assert (Hloading : loading (this w1) = true) by (by rewrite Hw1).
  assert (Hsummary : summary (this w1) = summary (this w)) by (by rewrite Hw1).
  exists r, k, w1. eexists _, _. split; [exact Ho|].
  split; [by rewrite Hw1|]. split; [done|]. split; [done|].
  split.
  { rewrite run_render_App, Hstored1, (proj2 (forallb_readable _) Hall). reflexivity. }
  unfold rendered_blocks. rewrite Hloading, Hsummary. simpl.
  rewrite !list_elem_of_In. setoid_rewrite list_elem_of_In.
  destruct elems as [|e rest]; simpl;
    destruct (Js.to_boolean (summary (this w))); simpl.
  all: split; [by left|]. all: split; [intuition discriminate|].
  all: split; [intros [cards H]; intuition discriminate | try done].
  all: intros _; eexists; eauto.
Qed.

(** X17: the rest of [handleSearch] calls [console.error] exactly once,
    with "Search error:" and the error, when the request is rejected or
    when the response or its body is [null] or [undefined] (the error then
    being a new [TypeError]); with any other body, a primitive one
    included, it logs nothing. *)
Theorem handleSearch_console_error (query : JsValue) (w : World) (s : Settled) (w2 : World) :
  ∃ w3,
    resumed (run (handleSearch query) w) s w2 = Returned tt w3 ∧
    console_errors (trace w3) =
      console_errors (trace w2) ++
      match s with
      | Rejected e => [[JsString "Search error:"; e]]
      | Fulfilled response =>
          if nullish response || nullish (member_of (heap w2) response M_data)
          then [[JsString "Search error:"; JsObjectRef (fresh_addr (heap w2))]]
          else []
      end ∧
    match s with
    | Rejected e => True
    | Fulfilled response =>
        if nullish response || nullish (member_of (heap w2) response M_data)
        then heap w3 !! fresh_addr (heap w2) = Some type_error_object
        else True
    end.
Proof.
  simpl. destruct s as [response|e]; run_cases.
  all: eexists; (split; [reflexivity|]); simpl.
  all: rewrite ?console_errors_snoc, ?app_nil_r; simpl; rewrite ?app_nil_r.
  all: split; try done.
  all: by apply insert_fresh_lookup, lookup_insert_eq.
Qed.

(** The fields the rest of [handleSearch] assigns from a body it can read. *)
Lemma resumed_fields
    (query : JsValue) (w : World) (response : JsValue) (w2 : World) :
  nullish response = false →
  nullish (member_of (heap w2) response M_data) = false →
  ∃ w3,
    resumed (run (handleSearch query) w) (Fulfilled response) w2 = Returned tt w3 ∧
    (if Js.to_boolean (member_of (heap w2) (member_of (heap w2) response M_data) M_results)
     then results (this w3) =
          member_of (heap w2) (member_of (heap w2) response M_data) M_results
     else ∃ a, results (this w3) = JsObjectRef a ∧ heap w2 !! a = None ∧
               heap w3 !! a = Some (ArrayObj [])) ∧
    summary (this w3) =
      (if Js.to_boolean (member_of (heap w2) (member_of (heap w2) response M_data) M_summary)
       then member_of (heap w2) (member_of (heap w2) response M_data) M_summary
       else JsString "").
Proof.
  intros Hresp Hdata. simpl. unfold mbind, prog_bind.
  rewrite run_bind, run_try_catch, run_bind, run_get_member, Hresp.
  repeat run_simpl. rewrite Hdata. repeat run_simpl.
  set (data := member_of (heap w2) response M_data) in *.
  destruct (Js.to_boolean (member_of (heap w2) data M_results)) eqn:Hr; repeat run_simpl.
  - rewrite Hdata. repeat run_simpl.
    destruct (Js.to_boolean (member_of (heap w2) data M_summary)) eqn:Hs; repeat run_simpl.
    all: eexists; (split; [reflexivity|]); by simpl.
  - rewrite Hdata. repeat run_simpl. rewrite member_of_alloc_array.
    destruct (Js.to_boolean (member_of (heap w2) data M_summary)) eqn:Hs; repeat run_simpl.
    all: eexists; (split; [reflexivity|]); simpl.
    all: split; [|done].
    all: eexists; split; [done|]; split; [apply fresh_addr_None | apply lookup_insert_eq].
Qed.

(** X18: when the body can be read, each of [results] and [summary] takes
    the body's field if that is truthy, and the default otherwise: a new
    empty array, the empty string. A field that is present but falsy
    ([null], [0], [false], [""], [NaN]) is thus treated as a missing one. *)
Theorem handleSearch_fields_or_default
    (query : JsValue) (w : World) (response : JsValue) (w2 : World) :
  nullish response = false →
  nullish (member_of (heap w2) response M_data) = false →
  ∃ w3,
    resumed (run (handleSearch query) w) (Fulfilled response) w2 = Returned tt w3 ∧
    (if Js.to_boolean (member_of (heap w2) (member_of (heap w2) response M_data) M_results)
     then results (this w3) =
          member_of (heap w2) (member_of (heap w2) response M_data) M_results
     else ∃ a, results (this w3) = JsObjectRef a ∧ heap w2 !! a = None ∧
               heap w3 !! a = Some (ArrayObj [])) ∧
    summary (this w3) =
      (if Js.to_boolean (member_of (heap w2) (member_of (heap w2) response M_data) M_summary)
       then member_of (heap w2) (member_of (heap w2) response M_data) M_summary
       else JsString "").
Proof. apply resumed_fields. Qed.

(** X19: [handleSearch] does not check that the body's [results] is an
    array. A truthy primitive (a string, a number, [true]) is stored as it
    is, and the template then throws instead of rendering. *)
Theorem handleSearch_stores_non_array
    (query : JsValue) (w : World) (response : JsValue) (w2 : World) :
  nullish response = false →
  nullish (member_of (heap w2) response M_data) = false →
  Js.to_boolean (member_of (heap w2) (member_of (heap w2) response M_data) M_results) = true →
  is_object (member_of (heap w2) (member_of (heap w2) response M_data) M_results) = false →
  ∃ w3 e w4,
    resumed (run (handleSearch query) w) (Fulfilled response) w2 = Returned tt w3 ∧
    results (this w3) = member_of (heap w2) (member_of (heap w2) response M_data) M_results ∧
    run render_App w3 = Thrown e w4.
Proof.
  intros Hresp Hdata Hr Hobj.
  destruct (resumed_fields query w response w2 Hresp Hdata) as (w3 & Hrun & Hres & _).
  rewrite Hr in Hres.
  exists w3. eexists _, _. split; [done|]. split; [done|].
  rewrite run_render_App. unfold stored_entries. rewrite Hres.
  by destruct (member_of (heap w2) (member_of (heap w2) response M_data) M_results).
Qed.

(** X20: [handleSearch] changes no object. Up to its [await] and from the
    settlement on, whatever the settlement, every object of the heap stays
    as it was (the response, the previous results); it only allocates. Its
    rest leaves [searched] alone and issues no request. *)
Theorem handleSearch_changes_no_object (query : JsValue) (w : World) :
  ∃ r k w1,
    run (handleSearch query) w = Suspended r k w1 ∧
    (∀ a o, heap w !! a = Some o → heap w1 !! a = Some o) ∧
    ∀ s w2, ∃ w3,
      run (k s) w2 = Returned tt w3 ∧
      (∀ a o, heap w2 !! a = Some o → heap w3 !! a = Some o) ∧
      searched (this w3) = searched (this w2) ∧
      requests (trace w3) = requests (trace w2).
Proof.
  eexists _, _, _. split; [reflexivity|].
  split; [intros a o Ha; by apply insert_fresh_lookup|].
  intros s w2.
  destruct (resumed_handleSearch query w s w2) as (w3 & Hrun & Hreq & _ & Hsd & Hheap & _).
  by exists w3.
Qed.

(** ** More on the HTTP client *)

(** X21: [searchAPI] does no recovery and touches no state of the
    component. It only allocates the body before the request; a rejection
    is thrown on as it is, with no effect at all; a response that is [null]
    or [undefined] makes it throw a new [TypeError]; from any other
    response it returns the [data] member, [undefined] when there is none. *)
Theorem searchAPI_no_recovery (query topK : JsValue) (w : World) :
  ∃ r k w1,
    run (searchAPI query topK) w = Suspended r k w1 ∧
    this w1 = this w ∧
    trace w1 = trace w ++ [EvRequest r] ∧
    (∀ a o, heap w !! a = Some o → heap w1 !! a = Some o) ∧
    (∀ e w2, run (k (Rejected e)) w2 = Thrown e w2) ∧
    (∀ response w2,
       run (k (Fulfilled response)) w2 =
       if nullish response
       then Thrown (JsObjectRef (fresh_addr (heap w2))) (alloc type_error_object w2)
       else Returned (member_of (heap w2) response M_data) w2).
Proof.
  eexists _, _, _. split; [reflexivity|].
  split; [done|]. split; [done|].
  split; [intros a o Ha; by apply insert_fresh_lookup|].
  split; [done|].
  intros response w2. simpl. apply run_get_member.
Qed.

(** ** The component over time *)

Lemma run_handleSearch (query : JsValue) (w : World) :
  ∃ r k w1,
    run (handleSearch query) w = Suspended r k w1 ∧
    requests (trace w1) = requests (trace w) ++ [r] ∧
    loading (this w1) = true ∧ searched (this w1) = true.
Proof.
  eexists _, _, _. split; [reflexivity|]. simpl.
  by rewrite !requests_snoc, !app_nil_r.
Qed.

Lemma run_rest_of_handleSearch (k : Settled → Prog unit) (s : Settled) (w2 : World) :
  rest_of_handleSearch k →
  ∃ w3,
    run (k s) w2 = Returned tt w3 ∧
    requests (trace w3) = requests (trace w2) ∧
    loading (this w3) = false ∧
    searched (this w3) = searched (this w2) ∧
    (∀ a o, heap w2 !! a = Some o → heap w3 !! a = Some o) ∧
    match s with Rejected _ => empty_handed w3 | Fulfilled _ => True end.
Proof.
  intros (query & w & r & w1 & Hk).
  pose proof (resumed_handleSearch query w s w2) as H. by rewrite Hk in H.
Qed.

Lemma step_handleSearch_pending (sys : System) (op : Op) :
  handleSearch_pending sys → handleSearch_pending (step sys op).
Proof.
  unfold handleSearch_pending. intros Hinv.
  destruct op as [query|i objs s|]; unfold step; [| |done].
  - destruct (run_handleSearch query (world sys)) as (r & k & w1 & Hk & _).
    rewrite Hk. simpl. apply Forall_app. split; [done|].
    apply Forall_singleton. by exists query, (world sys), r, w1.
  - destruct (pending sys !! i) as [k|] eqn:Hi; [|done].
    destruct (run_rest_of_handleSearch k s (receive objs (world sys)))
      as (w3 & -> & _); [by eapply Forall_lookup_1|].
    simpl. by apply Forall_delete.
Qed.

Lemma exec_handleSearch_pending (ops : list Op) (sys : System) :
  handleSearch_pending sys → handleSearch_pending (exec ops sys).
Proof.
  revert sys. induction ops as [|op ops IH]; intros sys Hinv; simpl; [done|].
  by apply IH, step_handleSearch_pending.
Qed.

Lemma created_handleSearch_pending : handleSearch_pending created.
Proof. by apply Forall_nil. Qed.

Lemma render_App_grown (w : World) : grown w (world_of (run render_App w)).
Proof.
  pose proof (harmless_render_App w) as H. by destruct (run render_App w).
Qed.

(** What one step does to the number of requests and to the flags. *)
Lemma step_observed (sys : System) (op : Op) :
  handleSearch_pending sys →
  length (requests (trace (world (step sys op)))) =
    length (requests (trace (world sys))) + (if is_submit op then 1 else 0) ∧
  searched (this (world (step sys op))) = searched (this (world sys)) || is_submit op.
Proof.
  intros Hinv. destruct op as [query|i objs s|]; unfold step.
  - destruct (run_handleSearch query (world sys)) as (r & k & w1 & -> & Hreq & _ & Hsd).
    simpl. rewrite Hreq, Hsd, length_app, orb_true_r. done.
  - destruct (pending sys !! i) as [k|] eqn:Hi;
      [|simpl; by rewrite orb_false_r, Nat.add_0_r].
    destruct (run_rest_of_handleSearch k s (receive objs (world sys)))
      as (w3 & -> & Hreq & _ & Hsd & _); [by eapply Forall_lookup_1|].
    simpl. rewrite Hreq, Hsd. simpl. by rewrite orb_false_r, Nat.add_0_r.
  - cbn [world is_submit]. destruct (render_App_grown (world sys)) as (-> & -> & _).
    by rewrite orb_false_r, Nat.add_0_r.
Qed.

(** X22: no retry and no request of its own accord. Along every run from
    the creation of the component, the requests issued are as many as the
    submissions: settlements, failed ones included, and renderings issue
    none. *)
Theorem one_request_per_submission (ops : list Op) :
  length (requests (trace (world (exec ops created)))) =
  length (List.filter is_submit ops).
Proof.
  assert (H : ∀ sys, handleSearch_pending sys →
            length (requests (trace (world (exec ops sys)))) =
            length (requests (trace (world sys))) + length (List.filter is_submit ops)).
  { induction ops as [|op ops IH]; intros sys Hinv; simpl; [lia|].
    rewrite (IH _ (step_handleSearch_pending sys op Hinv)).
    destruct (step_observed sys op Hinv) as [-> _].
    destruct (is_submit op); simpl; lia. }
  by rewrite (H created created_handleSearch_pending).
Qed.

(** X23: along every run from the creation of the component, [searched]
    is true exactly when a submission has happened: no settlement and no
    rendering sets it. *)
Theorem searched_iff_submitted (ops : list Op) :
  searched (this (world (exec ops created))) = existsb is_submit ops.
Proof.
  assert (H : ∀ sys, handleSearch_pending sys →
            searched (this (world (exec ops sys))) =
            searched (this (world sys)) || existsb is_submit ops).
  { induction ops as [|op ops IH]; intros sys Hinv; simpl; [by rewrite orb_false_r|].
    rewrite (IH _ (step_handleSearch_pending sys op Hinv)).
    destruct (step_observed sys op Hinv) as [_ ->]. by rewrite orb_assoc. }
  by rewrite (H created created_handleSearch_pending).
Qed.

Lemma step_settle (sys : System) (i : nat) (objs : gmap addr JsObject) (s : Settled) :
  handleSearch_pending sys →
  (i < length (pending sys))%nat →
  ∃ k w3,
    pending sys !! i = Some k ∧
    run (k s) (receive objs (world sys)) = Returned tt w3 ∧
    step sys (Settle i objs s) = {| world := w3; pending := delete i (pending sys) |} ∧
    loading (this w3) = false ∧
    match s with Rejected _ => empty_handed w3 | Fulfilled _ => True end.
Proof.
  intros Hinv Hi. destruct (lookup_lt_is_Some_2 _ _ Hi) as [k Hk].
  destruct (run_rest_of_handleSearch k s (receive objs (world sys)))
    as (w3 & Hrun & _ & Hl & _ & _ & He); [by eapply Forall_lookup_1|].
  exists k, w3. split; [done|]. split; [done|]. split; [|done].
  unfold step. by rewrite Hk, Hrun.
Qed.

(** X24: the loading flag follows the last settlement, not the requests
    in flight. The settlement of any pending request clears it, also while
    other requests are still pending. *)
Theorem settle_clears_loading
    (ops : list Op) (i : nat) (objs : gmap addr JsObject) (s : Settled) :
  (i < length (pending (exec ops created)))%nat →
  loading (this (world (step (exec ops created) (Settle i objs s)))) = false ∧
  length (pending (step (exec ops created) (Settle i objs s))) =
    (length (pending (exec ops created)) - 1)%nat.
Proof.
  intros Hi.
  destruct (step_settle (exec ops created) i objs s) as (k & w3 & Hk & _ & -> & Hl & _);
    [apply exec_handleSearch_pending, created_handleSearch_pending | done |].
  simpl. split; [done|]. rewrite length_delete; [lia | by eexists].
Qed.

(** X25: whichever pending request is rejected, and whatever has happened
    since it was submitted (a later search may have shown its results),
    [results] and [summary] are emptied. *)
Theorem settle_rejected_empties
    (ops : list Op) (i : nat) (objs : gmap addr JsObject) (e : JsValue) :
  (i < length (pending (exec ops created)))%nat →
  empty_handed (world (step (exec ops created) (Settle i objs (Rejected e)))).
Proof.
  intros Hi.
  destruct (step_settle (exec ops created) i objs (Rejected e))
    as (k & w3 & _ & _ & -> & _ & He);
    [apply exec_handleSearch_pending, created_handleSearch_pending | done | done].
Qed.

(** X26: the last settlement wins. When any pending request is fulfilled
    with a body whose [results] is truthy, that value replaces [results],
    whether or not a search submitted later has settled before it. *)
Theorem settle_fulfilled_overwrites
    (ops : list Op) (i : nat) (objs : gmap addr JsObject) (response : JsValue) :
  let h := heap (receive objs (world (exec ops created))) in
  (i < length (pending (exec ops created)))%nat →
  nullish response = false →
  nullish (member_of h response M_data) = false →
  Js.to_boolean (member_of h (member_of h response M_data) M_results) = true →
  results (this (world (step (exec ops created) (Settle i objs (Fulfilled response))))) =
  member_of h (member_of h response M_data) M_results.
Proof.
  intros h Hi Hresp Hdata Hr.
  destruct (step_settle (exec ops created) i objs (Fulfilled response))
    as (k & w3 & Hk & Hrun & -> & _);
    [apply exec_handleSearch_pending, created_handleSearch_pending | done |].
  assert (Hrest : rest_of_handleSearch k).
  { eapply Forall_lookup_1; [|done].
    apply exec_handleSearch_pending, created_handleSearch_pending. }
  destruct Hrest as (query & w & r & w1 & Hq).
  destruct (resumed_fields query w response (receive objs (world (exec ops created)))
              Hresp Hdata) as (w3' & Hrun' & Hres & _).
  rewrite Hq in Hrun'. simpl in Hrun'. rewrite Hrun in Hrun'. injection Hrun' as <-.
  fold h in Hres. by rewrite Hr in Hres.
Qed.

(** X27: before the first submission nothing is shown. After any run of
    renderings and settlements without a submission, the template renders
    no block at all: no loading indicator, no summary, no card and no "no
    results" message. *)
Theorem nothing_rendered_before_first_submit (ops : list Op) :
  existsb is_submit ops = false →
  ∃ w', run render_App (world (exec ops created)) = Returned [] w'.
Proof.
  intros Hops.
  assert (H : ∀ sys,
            pending sys = [] → this (world sys) = this (world created) →
            heap (world sys) !! (1 : addr) = Some (ArrayObj []) →
            this (world (exec ops sys)) = this (world created) ∧
            heap (world (exec ops sys)) !! (1 : addr) = Some (ArrayObj [])).
  { induction ops as [|op ops IH]; intros sys Hp Ht Hh; simpl; [done|].
    simpl in Hops. apply orb_false_elim in Hops as [Hop Hops].
    destruct op as [query|i objs s|]; [done| |].
    - apply (IH Hops); unfold step; by rewrite Hp.
    - destruct (render_App_grown (world sys)) as (Ht' & _ & Hh').
      apply (IH Hops); cbn [step world pending]; [done | congruence | by apply Hh']. }
  destruct (H created) as [Ht Hh]; [done..|].
  rewrite run_render_App. unfold stored_entries. rewrite Ht.
  change (results (this (world created))) with (JsObjectRef 1). cbv iota beta.
  rewrite Hh. unfold rendered_blocks. rewrite Ht. simpl. by eexists.
Qed.

(** ** The further properties at the sample worlds *)

Lemma uniqueResults_idempotent_stored_duplicates :
  ∃ a1 kept w1,
    run uniqueResults stored_duplicates = Returned (JsObjectRef a1) w1 ∧
    heap w1 !! a1 = Some (ArrayObj kept) ∧
    ∃ a2 w2,
      run uniqueResults (store_results (JsObjectRef a1) w1) = Returned (JsObjectRef a2) w2 ∧
      heap w2 !! a2 = Some (ArrayObj kept).
Proof.
  apply (uniqueResults_idempotent stored_duplicates 3
           [JsObjectRef 4; JsObjectRef 5; JsObjectRef 6; JsObjectRef 7]).
  - reflexivity.
  - vm_compute. reflexivity.
  - repeat constructor.
Defined.

Lemma uniqueResults_unchanged_iff_distinct_stored_duplicates :
  ∃ a' kept w',
    run uniqueResults stored_duplicates = Returned (JsObjectRef a') w' ∧
    heap w' !! a' = Some (ArrayObj kept) ∧
    (kept = [JsObjectRef 4; JsObjectRef 5; JsObjectRef 6; JsObjectRef 7] ↔
     distinct_values
       (pmc_id (heap stored_duplicates) <$>
        [JsObjectRef 4; JsObjectRef 5; JsObjectRef 6; JsObjectRef 7]) = true).
Proof.
  apply (uniqueResults_unchanged_iff_distinct stored_duplicates 3
           [JsObjectRef 4; JsObjectRef 5; JsObjectRef 6; JsObjectRef 7]).
  - reflexivity.
  - vm_compute. reflexivity.
  - repeat constructor.
Defined.

Lemma uniqueResults_identifiers_stored_duplicates :
  ∃ a' kept w',
    run uniqueResults stored_duplicates = Returned (JsObjectRef a') w' ∧
    heap w' !! a' = Some (ArrayObj kept) ∧
    NoDup (pmc_id (heap stored_duplicates) <$> kept) ∧
    ∀ v, v ∈ pmc_id (heap stored_duplicates) <$> kept ↔
         v ∈ pmc_id (heap stored_duplicates) <$>
             [JsObjectRef 4; JsObjectRef 5; JsObjectRef 6; JsObjectRef 7].
Proof.
  apply (uniqueResults_identifiers stored_duplicates 3
           [JsObjectRef 4; JsObjectRef 5; JsObjectRef 6; JsObjectRef 7]).
  - reflexivity.
  - vm_compute. reflexivity.
  - repeat constructor.
  - repeat constructor.
Defined.

Lemma uniqueResults_keeps_first_entry_stored_duplicates :
  ∃ a' kept w',
    run uniqueResults stored_duplicates = Returned (JsObjectRef a') w' ∧
    heap w' !! a' = Some (ArrayObj kept) ∧
    head kept = head [JsObjectRef 4; JsObjectRef 5; JsObjectRef 6; JsObjectRef 7] ∧
    (length kept ≤ length [JsObjectRef 4; JsObjectRef 5; JsObjectRef 6; JsObjectRef 7])%nat ∧
    (kept = [] ↔ [JsObjectRef 4; JsObjectRef 5; JsObjectRef 6; JsObjectRef 7] = []).
Proof.
  apply (uniqueResults_keeps_first_entry stored_duplicates 3
           [JsObjectRef 4; JsObjectRef 5; JsObjectRef 6; JsObjectRef 7]).
  - reflexivity.
  - vm_compute. reflexivity.
  - repeat constructor.
Defined.

Lemma loading_block_iff_two_results :
  ∃ blocks,
    run (SearchResults.render props_two_results) stored_duplicates =
      Returned blocks stored_duplicates ∧
    (SearchResults.LoadingBlock ∈ blocks ↔ SearchResults.loading props_two_results = true).
Proof.
  apply (loading_block_iff props_two_results stored_duplicates). repeat constructor.
Defined.

Lemma summary_block_iff_two_results :
  ∃ blocks,
    run (SearchResults.render props_two_results) stored_duplicates =
      Returned blocks stored_duplicates ∧
    ∀ text, SearchResults.SummaryBlock text ∈ blocks ↔
            text = SearchResults.summary props_two_results ∧
            Js.to_boolean (SearchResults.summary props_two_results) = true.
Proof.
  apply (summary_block_iff props_two_results stored_duplicates). repeat constructor.
Defined.


Lemma no_results_block_excludes_two_results :
  ∃ blocks,
    run (SearchResults.render props_two_results) stored_duplicates =
      Returned blocks stored_duplicates ∧
    ¬ (SearchResults.NoResultsBlock ∈ blocks ∧ SearchResults.LoadingBlock ∈ blocks) ∧
    ¬ (SearchResults.NoResultsBlock ∈ blocks ∧
       ∃ cards, SearchResults.ResultsBlock cards ∈ blocks) ∧
    (length blocks ≤ 3)%nat.
Proof.
  apply (no_results_block_excludes props_two_results stored_duplicates). repeat constructor.
Defined.


Lemma render_App_no_results_iff_stored_duplicates :
  ∃ blocks w',
    run render_App stored_duplicates = Returned blocks w' ∧
    (SearchResults.NoResultsBlock ∈ blocks ↔
     loading (this stored_duplicates) = false ∧
     [JsObjectRef 4; JsObjectRef 5; JsObjectRef 6; JsObjectRef 7] = [] ∧
     searched (this stored_duplicates) = true).
Proof.
  apply (render_App_no_results_iff stored_duplicates
           [JsObjectRef 4; JsObjectRef 5; JsObjectRef 6; JsObjectRef 7]).
  - vm_compute. reflexivity.
  - repeat constructor.
Defined.

Lemma handleSearch_keeps_results_in_flight_stored_duplicates :
  ∃ r k w1 blocks w',
    run (handleSearch (JsString "second")) stored_duplicates = Suspended r k w1 ∧
    results (this w1) = results (this stored_duplicates) ∧
    summary (this w1) = summary (this stored_duplicates) ∧
    stored_entries w1 =
      Some [JsObjectRef 4; JsObjectRef 5; JsObjectRef 6; JsObjectRef 7] ∧
    run render_App w1 = Returned blocks w' ∧
    SearchResults.LoadingBlock ∈ blocks ∧
    (SearchResults.NoResultsBlock ∉ blocks) ∧
    ((∃ cards, SearchResults.ResultsBlock cards ∈ blocks) ↔
     [JsObjectRef 4; JsObjectRef 5; JsObjectRef 6; JsObjectRef 7] ≠ []).
Proof.
  apply (handleSearch_keeps_results_in_flight (JsString "second") stored_duplicates
           [JsObjectRef 4; JsObjectRef 5; JsObjectRef 6; JsObjectRef 7]).
  - vm_compute. reflexivity.
  - repeat constructor.
Defined.

Lemma handleSearch_fields_or_default_arrived_malformed :
  ∃ w3,
    resumed (run (handleSearch (JsString "q")) (world created))
            (Fulfilled (JsObjectRef 1)) arrived_malformed = Returned tt w3 ∧
    (if Js.to_boolean
          (member_of (heap arrived_malformed)
             (member_of (heap arrived_malformed) (JsObjectRef 1) M_data) M_results)
     then results (this w3) =
          member_of (heap arrived_malformed)
            (member_of (heap arrived_malformed) (JsObjectRef 1) M_data) M_results
     else ∃ a, results (this w3) = JsObjectRef a ∧ heap arrived_malformed !! a = None ∧
               heap w3 !! a = Some (ArrayObj [])) ∧
    summary (this w3) =
      (if Js.to_boolean
            (member_of (heap arrived_malformed)
               (member_of (heap arrived_malformed) (JsObjectRef 1) M_data) M_summary)
       then member_of (heap arrived_malformed)
              (member_of (heap arrived_malformed) (JsObjectRef 1) M_data) M_summary
       else JsString "").
Proof.
  apply (handleSearch_fields_or_default (JsString "q") (world created)
           (JsObjectRef 1) arrived_malformed).
  - reflexivity.
  - vm_compute. reflexivity.
Defined.

Lemma handleSearch_stores_non_array_arrived_malformed :
  ∃ w3 e w4,
    resumed (run (handleSearch (JsString "q")) (world created))
            (Fulfilled (JsObjectRef 1)) arrived_malformed = Returned tt w3 ∧
    results (this w3) =
      member_of (heap arrived_malformed)
        (member_of (heap arrived_malformed) (JsObjectRef 1) M_data) M_results ∧
    run render_App w3 = Thrown e w4.
Proof.
  apply (handleSearch_stores_non_array (JsString "q") (world created)
           (JsObjectRef 1) arrived_malformed).
  - reflexivity.
  - vm_compute. reflexivity.
  - vm_compute. reflexivity.
  - vm_compute. reflexivity.
Defined.

Lemma settle_clears_loading_two_submissions :
  loading (this (world (step (exec two_submissions created)
                          (Settle 0 late_objects (Fulfilled (JsObjectRef 100)))))) = false ∧
  length (pending (step (exec two_submissions created)
                     (Settle 0 late_objects (Fulfilled (JsObjectRef 100))))) =
    (length (pending (exec two_submissions created)) - 1)%nat.
Proof.
  apply (settle_clears_loading two_submissions 0 late_objects (Fulfilled (JsObjectRef 100))).
  vm_compute. lia.
Defined.

Lemma settle_rejected_empties_two_submissions :
  empty_handed
    (world (step (exec (two_submissions ++
                        [Settle 1 late_objects (Fulfilled (JsObjectRef 100))]) created)
              (Settle 0 ∅ (Rejected JsNull)))).
Proof.
  apply (settle_rejected_empties
           (two_submissions ++ [Settle 1 late_objects (Fulfilled (JsObjectRef 100))])
           0 ∅ JsNull).
  vm_compute. lia.
Defined.

Lemma settle_fulfilled_overwrites_two_submissions :
  results (this (world (step (exec (two_submissions ++ [Settle 1 ∅ (Rejected JsNull)]) created)
                          (Settle 0 late_objects (Fulfilled (JsObjectRef 100)))))) =
  member_of
    (heap (receive late_objects
             (world (exec (two_submissions ++ [Settle 1 ∅ (Rejected JsNull)]) created))))
    (member_of
       (heap (receive late_objects
                (world (exec (two_submissions ++ [Settle 1 ∅ (Rejected JsNull)]) created))))
       (JsObjectRef 100) M_data)
    M_results.
Proof.
  apply (settle_fulfilled_overwrites
           (two_submissions ++ [Settle 1 ∅ (Rejected JsNull)]) 0 late_objects (JsObjectRef 100)).
  - vm_compute. lia.
  - reflexivity.
  - vm_compute. reflexivity.
  - vm_compute. reflexivity.
Defined.

Lemma nothing_rendered_before_first_submit_idle :
  ∃ w', run render_App
          (world (exec [Render; Settle 0 ∅ (Rejected JsNull); Render] created)) =
        Returned [] w'.
Proof.
  apply (nothing_rendered_before_first_submit [Render; Settle 0 ∅ (Rejected JsNull); Render]).
  reflexivity.
Defined.
